(** * Mycelia: picking, render cache, edge drawing and layout lifecycle

    A shallow embedding of the parts of [src/mycelia.cpp] that decide the
    picking queries, the display-list cache, the edge render pass, the
    predecessor overlays, node selection and the layout life cycle.

    The scalars of the scene (positions, sizes, radii, angles, weights)
    are embedded as exact rationals.  The picking queries store what the
    libraries return in variables of type [float], and compare, multiply
    and divide those: there the embedding follows IEEE 754 binary32, with
    the specification of floating-point arithmetic of the standard
    library, rounding to nearest with ties to even. *)

From Stdlib Require Import ZArith QArith Qabs List ListDec Bool Lia Lqa String.
From Stdlib Require Import SpecFloat.
Import ListNotations.

Local Open Scope Z_scope.

(** ** Scalars *)

Module Float.

(** [float] is binary32: 24 bits of precision, exponents below 128.
    [double], the [Vrui::Scalar] in which the libraries compute, is
    binary64.  Both are values of [spec_float]: a signed zero, a signed
    infinity, a NaN, or a finite [(-1)^s * m * 2^e]. *)
Definition float : Type := spec_float.
Definition double : Type := spec_float.

Definition prec : Z := 24.
Definition emax : Z := 128.

(** The conversion at [float v = e] for an [e] of type [double]: to the
    nearest [float], a tie to the even one, a value beyond the largest
    finite [float] to an infinity, a value too small to zero. *)
Definition of_double (d : double) : float :=
  match d with
  | S754_finite s m e => binary_round prec emax s m e
  | _ => d
  end.

(** The [float] of an integer constant. *)
Definition of_Z (z : Z) : float := binary_normalize prec emax z 0 false.

End Float.

Import Float.

Module Math.

(** An operation on two [float] is carried out in binary32 and rounded
    once, to the nearest [float]. *)

(** [Math::sqr] at [float]: the product, rounded. *)
Definition sqr (x : float) : float := SFmul prec emax x x.

(** [x / y] on two [float]: an infinity for a finite [x] other than zero
    over zero, a NaN for zero over zero. *)
Definition div (x y : float) : float := SFdiv prec emax x y.

(** The comparisons; each is false when an operand is a NaN. *)
Definition ltb (x y : float) : bool := SFltb x y.
Definition leb (x y : float) : bool := SFleb x y.
Definition geb (x y : float) : bool := SFleb y x.

(** The [int] constant [0] in a comparison with a [float]. *)
Definition zero : float := S754_zero false.

Definition isZero (x : float) : bool :=
  match x with
  | S754_zero _ => true
  | _ => false
  end.

(** [numeric_limits<float>::max()], that is (2^24 - 1) * 2^104. *)
Definition FLT_MAX : float := S754_finite false (2 ^ 24 - 1)%positive 104.

End Math.

(** ** Points and vectors ([Geometry], [Vrui::Point], [Vrui::Vector]) *)

Module Geometry.

Record Vector : Type := mkVector { vx : Q; vy : Q; vz : Q }.

(** Points and vectors share their representation. *)
Definition Point : Type := Vector.

Definition sub (p q : Vector) : Vector :=
  mkVector (vx p - vx q)%Q (vy p - vy q)%Q (vz p - vz q)%Q.

(** [operator*] on two vectors: the scalar product. *)
Definition dot (a b : Vector) : Q :=
  (vx a * vx b + vy a * vy b + vz a * vz b)%Q.

Definition cross (a b : Vector) : Vector :=
  mkVector (vy a * vz b - vz a * vy b)%Q
           (vz a * vx b - vx a * vz b)%Q
           (vx a * vy b - vy a * vx b)%Q.

(** [Geometry::sqr] of a vector: its squared magnitude. *)
Definition sqr (a : Vector) : Q := dot a a.

Definition sqrDist (p q : Point) : Q := sqr (sub p q).

Record Ray : Type := mkRay { getOrigin : Point; getDirection : Vector }.

End Geometry.

Import Geometry.

(** ** What the picking queries take from Vrui

    [Math::sqr] on a scalar of the scene and the operations of [Geometry]
    on its points are templates of Vrui, which compute in [Vrui::Scalar].
    The embedding takes their results as they come, one [double] for each
    expression that the source stores in a [float]. *)
Record Numerics : Type := mkNumerics {
  (* Math::sqr(s) for a scalar member s *)
  Scalar_sqr : Q -> double;
  (* Geometry::sqrDist(p, q) *)
  Point_sqrDist : Point -> Point -> double;
  (* (p - ray.getOrigin()) * ray.getDirection() *)
  Ray_projection : Ray -> Point -> double;
  (* Geometry::sqr(Geometry::cross(p - ray.getOrigin(), ray.getDirection())) *)
  Ray_sqrOffset : Ray -> Point -> double
}.

(** ** The graph ([graph.hpp]) as far as this file reads it *)

Record Edge : Type := mkEdge {
  source : Z;
  target : Z;
  weight : Q;
  material : Z
}.

Record Graph : Type := mkGraph {
  getNodes : list Z;               (* node ids in iteration order *)
  getNodePosition : Z -> Point;
  getNodeComponent : Z -> Z;
  getNodeType : Z -> string;
  getNodeImagePath : Z -> string;
  getNodeSize : Z -> Q;
  getNodeMaterial : Z -> Z;
  getEdges : list Z;               (* edge ids in iteration order *)
  getEdge : Z -> Edge;
  getVersion : Z;
  getTextureNodeMode : string;
  isBidirectional : Z -> Z -> bool;
  isValidNode : Z -> bool
}.

(** [Graph::getNodeCount]: the number of nodes the graph iterates over. *)
Definition getNodeCount (gr : Graph) : Z := Z.of_nat (List.length (getNodes gr)).

(** ** Outcomes

    A run of the source ends with a value, reads or writes an array or a
    vector outside its bounds, or is still looping when the fuel given to
    the model is spent. *)

Inductive outcome (A : Type) : Type :=
| Done (a : A)
| OutOfBounds
| OutOfFuel.

Arguments Done {A} a.
Arguments OutOfBounds {A}.
Arguments OutOfFuel {A}.

Definition bind {A B : Type} (m : outcome A) (k : A -> outcome B)
    : outcome B :=
  match m with
  | Done a => k a
  | OutOfBounds => OutOfBounds
  | OutOfFuel => OutOfFuel
  end.

Definition omap {A B : Type} (f : A -> B) (m : outcome A) : outcome B :=
  bind m (fun a => Done (f a)).

Notation "x <- m ;; k" := (bind m (fun x => k))
  (at level 61, m at next level, right associativity).

(** ** What the renderer emits *)

Inductive DisplayList : Type := NodeList | ArrowList | GraphList.

(** A material is named by the accessor of the graph that yields it. *)
Inductive MaterialRef : Type :=
| NodeMaterial (node : Z)
| NodeMaterialFromId (id : Z)
| EdgeMaterial (edge : Z)
| EdgeMaterialFromId (id : Z).

Inductive GLCmd : Type :=
| glMaterial (m : MaterialRef)
| glPushMatrix
| glPopMatrix
| glTranslatef (x y z : Q)
| glRotatef (a x y z : Q)
| glScalef (x y z : Q)
| gluSphere (radius : Q)
| gluCylinder (base top height : Q)
| gluDisk (inner outer : Q)
| gluQuadricOrientation (inside : bool)
| glCallList (l : DisplayList)
| glLighting (on : bool)
| glPushAttrib
| glPopAttrib
| glTextureQuad (imageId : Z) (node : Z)
| glOther (what : string).

(** [MyceliaDataItem]: the per-context display lists and the version of
    the graph they were compiled from. *)
Record DataItem : Type := mkDataItem {
  graphListVersion : Z;
  nodeList : list GLCmd;
  arrowList : list GLCmd;
  graphList : list GLCmd;
  getTextureId : string -> Z
}.

(** ** The application object *)

Inductive LifeCycle : Type := Stopped | Running.

Inductive LayoutRef : Type := StaticLayoutRef | DynamicLayoutRef.

Record EdgeBundler : Type := mkEdgeBundler {
  bundlerState : LifeCycle;
  getSegmentCount : Z;
  getSegment : Z -> Z -> Point
}.

Definition Attributes : Type := list (string * string).

Inductive Diagnostic : Type :=
| InvalidNodeSelected (node : Z).   (* "invalid node selected: " << node *)

Record Mycelia : Type := mkMycelia {
  g : Graph;
  gCopy : Graph;
  layout : LayoutRef;
  staticLayout : LifeCycle;
  dynamicLayout : LifeCycle;
  edgeBundler : EdgeBundler;
  skipLayout : bool;
  bundleButton : bool;
  componentButton : bool;
  nodeInfoButton : bool;
  shortestPathButton : bool;
  spanningTreeButton : bool;
  layoutRadioBox : Z;              (* index of the selected toggle *)
  layoutWindow : bool;             (* shown *)
  nodeWindow : Attributes;
  showingLogo : bool;
  selectedNode : Z;
  previousNode : Z;
  coneAngle : Q;
  nodeRadius : Q;
  arrowHeight : Q;
  arrowWidth : Q;
  edgeThickness : Q;
  edgeOffset : Q;
  predecessorVector : list Z;
  cout : list Diagnostic
}.

(** Field updates. *)

Definition set_g (v : Graph) (app : Mycelia) : Mycelia :=
  mkMycelia v (gCopy app) (layout app) (staticLayout app)
    (dynamicLayout app) (edgeBundler app) (skipLayout app) (bundleButton app)
    (componentButton app) (nodeInfoButton app) (shortestPathButton app)
    (spanningTreeButton app) (layoutRadioBox app) (layoutWindow app)
    (nodeWindow app) (showingLogo app) (selectedNode app) (previousNode app)
    (coneAngle app) (nodeRadius app) (arrowHeight app) (arrowWidth app)
    (edgeThickness app) (edgeOffset app) (predecessorVector app) (cout app).

Definition set_frame (copy : Graph) (logo : bool) (app : Mycelia) : Mycelia :=
  mkMycelia (g app) copy (layout app) (staticLayout app) (dynamicLayout app)
    (edgeBundler app) (skipLayout app) (bundleButton app)
    (componentButton app) (nodeInfoButton app) (shortestPathButton app)
    (spanningTreeButton app) (layoutRadioBox app) (layoutWindow app)
    (nodeWindow app) logo (selectedNode app) (previousNode app)
    (coneAngle app) (nodeRadius app) (arrowHeight app) (arrowWidth app)
    (edgeThickness app) (edgeOffset app) (predecessorVector app) (cout app).

Definition set_layout (v : LayoutRef) (app : Mycelia) : Mycelia :=
  mkMycelia (g app) (gCopy app) v (staticLayout app) (dynamicLayout app)
    (edgeBundler app) (skipLayout app) (bundleButton app)
    (componentButton app) (nodeInfoButton app) (shortestPathButton app)
    (spanningTreeButton app) (layoutRadioBox app) (layoutWindow app)
    (nodeWindow app) (showingLogo app) (selectedNode app) (previousNode app)
    (coneAngle app) (nodeRadius app) (arrowHeight app) (arrowWidth app)
    (edgeThickness app) (edgeOffset app) (predecessorVector app) (cout app).

Definition set_staticLayout (v : LifeCycle) (app : Mycelia) : Mycelia :=
  mkMycelia (g app) (gCopy app) (layout app) v (dynamicLayout app)
    (edgeBundler app) (skipLayout app) (bundleButton app)
    (componentButton app) (nodeInfoButton app) (shortestPathButton app)
    (spanningTreeButton app) (layoutRadioBox app) (layoutWindow app)
    (nodeWindow app) (showingLogo app) (selectedNode app) (previousNode app)
    (coneAngle app) (nodeRadius app) (arrowHeight app) (arrowWidth app)
    (edgeThickness app) (edgeOffset app) (predecessorVector app) (cout app).

Definition set_dynamicLayout (v : LifeCycle) (app : Mycelia) : Mycelia :=
  mkMycelia (g app) (gCopy app) (layout app) (staticLayout app) v
    (edgeBundler app) (skipLayout app) (bundleButton app)
    (componentButton app) (nodeInfoButton app) (shortestPathButton app)
    (spanningTreeButton app) (layoutRadioBox app) (layoutWindow app)
    (nodeWindow app) (showingLogo app) (selectedNode app) (previousNode app)
    (coneAngle app) (nodeRadius app) (arrowHeight app) (arrowWidth app)
    (edgeThickness app) (edgeOffset app) (predecessorVector app) (cout app).

Definition set_edgeBundler (v : EdgeBundler) (app : Mycelia) : Mycelia :=
  mkMycelia (g app) (gCopy app) (layout app) (staticLayout app)
    (dynamicLayout app) v (skipLayout app) (bundleButton app)
    (componentButton app) (nodeInfoButton app) (shortestPathButton app)
    (spanningTreeButton app) (layoutRadioBox app) (layoutWindow app)
    (nodeWindow app) (showingLogo app) (selectedNode app) (previousNode app)
    (coneAngle app) (nodeRadius app) (arrowHeight app) (arrowWidth app)
    (edgeThickness app) (edgeOffset app) (predecessorVector app) (cout app).

Definition set_skipLayout (v : bool) (app : Mycelia) : Mycelia :=
  mkMycelia (g app) (gCopy app) (layout app) (staticLayout app)
    (dynamicLayout app) (edgeBundler app) v (bundleButton app)
    (componentButton app) (nodeInfoButton app) (shortestPathButton app)
    (spanningTreeButton app) (layoutRadioBox app) (layoutWindow app)
    (nodeWindow app) (showingLogo app) (selectedNode app) (previousNode app)
    (coneAngle app) (nodeRadius app) (arrowHeight app) (arrowWidth app)
    (edgeThickness app) (edgeOffset app) (predecessorVector app) (cout app).

Definition set_bundleButton (v : bool) (app : Mycelia) : Mycelia :=
  mkMycelia (g app) (gCopy app) (layout app) (staticLayout app)
    (dynamicLayout app) (edgeBundler app) (skipLayout app) v
    (componentButton app) (nodeInfoButton app) (shortestPathButton app)
    (spanningTreeButton app) (layoutRadioBox app) (layoutWindow app)
    (nodeWindow app) (showingLogo app) (selectedNode app) (previousNode app)
    (coneAngle app) (nodeRadius app) (arrowHeight app) (arrowWidth app)
    (edgeThickness app) (edgeOffset app) (predecessorVector app) (cout app).

Definition set_shortestPathButton (v : bool) (app : Mycelia) : Mycelia :=
  mkMycelia (g app) (gCopy app) (layout app) (staticLayout app)
    (dynamicLayout app) (edgeBundler app) (skipLayout app) (bundleButton app)
    (componentButton app) (nodeInfoButton app) v (spanningTreeButton app)
    (layoutRadioBox app) (layoutWindow app) (nodeWindow app) (showingLogo app)
    (selectedNode app) (previousNode app) (coneAngle app) (nodeRadius app)
    (arrowHeight app) (arrowWidth app) (edgeThickness app) (edgeOffset app)
    (predecessorVector app) (cout app).

Definition set_layoutRadioBox (v : Z) (app : Mycelia) : Mycelia :=
  mkMycelia (g app) (gCopy app) (layout app) (staticLayout app)
    (dynamicLayout app) (edgeBundler app) (skipLayout app) (bundleButton app)
    (componentButton app) (nodeInfoButton app) (shortestPathButton app)
    (spanningTreeButton app) v (layoutWindow app) (nodeWindow app)
    (showingLogo app) (selectedNode app) (previousNode app) (coneAngle app)
    (nodeRadius app) (arrowHeight app) (arrowWidth app) (edgeThickness app)
    (edgeOffset app) (predecessorVector app) (cout app).

Definition set_layoutWindow (v : bool) (app : Mycelia) : Mycelia :=
  mkMycelia (g app) (gCopy app) (layout app) (staticLayout app)
    (dynamicLayout app) (edgeBundler app) (skipLayout app) (bundleButton app)
    (componentButton app) (nodeInfoButton app) (shortestPathButton app)
    (spanningTreeButton app) (layoutRadioBox app) v (nodeWindow app)
    (showingLogo app) (selectedNode app) (previousNode app) (coneAngle app)
    (nodeRadius app) (arrowHeight app) (arrowWidth app) (edgeThickness app)
    (edgeOffset app) (predecessorVector app) (cout app).

Definition set_nodeWindow (v : Attributes) (app : Mycelia) : Mycelia :=
  mkMycelia (g app) (gCopy app) (layout app) (staticLayout app)
    (dynamicLayout app) (edgeBundler app) (skipLayout app) (bundleButton app)
    (componentButton app) (nodeInfoButton app) (shortestPathButton app)
    (spanningTreeButton app) (layoutRadioBox app) (layoutWindow app) v
    (showingLogo app) (selectedNode app) (previousNode app) (coneAngle app)
    (nodeRadius app) (arrowHeight app) (arrowWidth app) (edgeThickness app)
    (edgeOffset app) (predecessorVector app) (cout app).

Definition set_selection (sel : Z) (prev : Z) (app : Mycelia) : Mycelia :=
  mkMycelia (g app) (gCopy app) (layout app) (staticLayout app)
    (dynamicLayout app) (edgeBundler app) (skipLayout app) (bundleButton app)
    (componentButton app) (nodeInfoButton app) (shortestPathButton app)
    (spanningTreeButton app) (layoutRadioBox app) (layoutWindow app)
    (nodeWindow app) (showingLogo app) sel prev (coneAngle app)
    (nodeRadius app) (arrowHeight app) (arrowWidth app) (edgeThickness app)
    (edgeOffset app) (predecessorVector app) (cout app).

Definition set_sizes (r : Q) (h : Q) (w : Q) (t : Q) (o : Q)
    (app : Mycelia) : Mycelia :=
  mkMycelia (g app) (gCopy app) (layout app) (staticLayout app)
    (dynamicLayout app) (edgeBundler app) (skipLayout app) (bundleButton app)
    (componentButton app) (nodeInfoButton app) (shortestPathButton app)
    (spanningTreeButton app) (layoutRadioBox app) (layoutWindow app)
    (nodeWindow app) (showingLogo app) (selectedNode app) (previousNode app)
    (coneAngle app) r h w t o (predecessorVector app) (cout app).

Definition set_predecessorVector (v : list Z) (app : Mycelia) : Mycelia :=
  mkMycelia (g app) (gCopy app) (layout app) (staticLayout app)
    (dynamicLayout app) (edgeBundler app) (skipLayout app) (bundleButton app)
    (componentButton app) (nodeInfoButton app) (shortestPathButton app)
    (spanningTreeButton app) (layoutRadioBox app) (layoutWindow app)
    (nodeWindow app) (showingLogo app) (selectedNode app) (previousNode app)
    (coneAngle app) (nodeRadius app) (arrowHeight app) (arrowWidth app)
    (edgeThickness app) (edgeOffset app) v (cout app).

Definition set_cout (v : list Diagnostic) (app : Mycelia) : Mycelia :=
  mkMycelia (g app) (gCopy app) (layout app) (staticLayout app)
    (dynamicLayout app) (edgeBundler app) (skipLayout app) (bundleButton app)
    (componentButton app) (nodeInfoButton app) (shortestPathButton app)
    (spanningTreeButton app) (layoutRadioBox app) (layoutWindow app)
    (nodeWindow app) (showingLogo app) (selectedNode app) (previousNode app)
    (coneAngle app) (nodeRadius app) (arrowHeight app) (arrowWidth app)
    (edgeThickness app) (edgeOffset app) (predecessorVector app) v.

(** ** What [mycelia.cpp] takes from elsewhere

    Constants and default arguments declared in [mycelia.hpp] and
    [graph.hpp], which are not part of the sources at hand. *)
Record Header : Type := mkHeader {
  SELECTION_NONE : Z;
  LAYOUT_STATIC : Z;
  LAYOUT_DYNAMIC : Z;
  MATERIAL_SELECTED : Z;
  MATERIAL_SELECTED_PREVIOUS : Z;
  drawNodes_filter : string;       (* default filter of [drawNodes] *)
  resetLayout_watch : bool;        (* default [watch] of [resetLayout] *)
  Edge_weight : Q;                 (* weight given by [Edge(int, int)] *)
  Edge_material : Z                (* material given by [Edge(int, int)] *)
}.

(** Library routines and graph mutators that the file calls and that are
    not examined here. *)
Record External : Type := mkExternal {
  mag : Vector -> Q;                         (* [Geometry::mag] *)
  angleDegrees : Vector -> Vector -> Q;      (* [degrees(angle(a, b))] *)
  update : Graph -> Graph;
  randomizePositions : Z -> Graph -> Graph;
  clearVelocities : Graph -> Graph;
  locate : Graph -> Point * Q;
  moveNodes : Point -> Graph -> Graph;
  getShortestPath : Graph -> list Z;
  getNodeAttributes : Graph -> Z -> Attributes;
  drawLogo : list GLCmd;
  drawNodeLabels : Mycelia -> list GLCmd;
  drawEdgeLabels : Mycelia -> list GLCmd
}.

Definition zVector : Vector := mkVector 0 0 1.

(** ** The deduplication table of [drawEdges]

    [bool drawn[1000][1000]], all false at first.  The model keeps the
    index pairs that were set; an index outside [0, 1000) is out of
    bounds in either dimension. *)

Definition DrawnTable : Type := list (Z * Z).

Definition DRAWN_SIZE : Z := 1000.

Definition in_table (i : Z) : bool := (0 <=? i) && (i <? DRAWN_SIZE).

Definition same_cell (i j : Z) (c : Z * Z) : bool :=
  (fst c =? i) && (snd c =? j).

Definition drawn_get (drawn : DrawnTable) (i j : Z) : outcome bool :=
  if in_table i && in_table j
  then Done (existsb (same_cell i j) drawn)
  else OutOfBounds.

Definition drawn_set (drawn : DrawnTable) (i j : Z) : outcome DrawnTable :=
  if in_table i && in_table j
  then Done ((i, j) :: drawn)
  else OutOfBounds.

(** One call of [drawEdge] made by the edge pass: either the [Edge]
    overload, or the seven-argument overload on one bundled segment. *)
Inductive EdgeCall : Type :=
| CallDrawEdge (e : Edge)
| CallDrawSegment (p q : Point) (m : MaterialRef) (width : Q).

(** [std::vector::operator[]] on the predecessor vector. *)
Definition vector_at (v : list Z) (i : Z) : outcome Z :=
  if (0 <=? i) && (i <? Z.of_nat (List.length v))
  then Done (nth (Z.to_nat i) v 0)
  else OutOfBounds.

Section Source.

Variable hdr : Header.
Variable ext : External.
Variable num : Numerics.

(** *** [Mycelia::isSelectedComponent] *)

Definition isSelectedComponent (app : Mycelia) (node : Z) : bool :=
  if componentButton app
  then getNodeComponent (gCopy app) node
       =? getNodeComponent (gCopy app) (selectedNode app)
  else true.

(** *** [Mycelia::drawEdge], seven arguments *)

(** Lines 332-339: where the cylinder starts along the edge, and how
    long it is. *)
Definition edgeOffsets (app : Mycelia) (length : Q)
    (drawArrow isBidir : bool) : Q * Q :=
  let sourceOffset := 0%Q in
  let targetOffset :=
    if drawArrow then (length - edgeOffset app)%Q else length in
  if isBidir && drawArrow
  then (edgeOffset app, (length - 2 * edgeOffset app)%Q)
  else (sourceOffset, targetOffset).

Definition drawEdge (app : Mycelia) (src tgt : Point) (m : MaterialRef)
    (thickness : Q) (drawArrow isBidir : bool) : list GLCmd :=
  let edgeVector := sub tgt src in
  let normalVector := cross edgeVector zVector in
  let length := mag ext edgeVector in
  let '(sourceOffset, targetOffset) :=
    edgeOffsets app length drawArrow isBidir in
  [ glMaterial m;
    glPushMatrix;
    glTranslatef (vx src) (vy src) (vz src);
    glRotatef (- angleDegrees ext edgeVector zVector)%Q
              (vx normalVector) (vy normalVector) (vz normalVector);
    glTranslatef 0 0 sourceOffset;
    gluCylinder thickness thickness targetOffset ]
  ++ (if drawArrow
      then [ glTranslatef 0 0 targetOffset; glCallList ArrowList ]
      else [])
  ++ [ glPopMatrix ].

(** *** [Mycelia::drawEdge], the [Edge] overload *)

Definition drawEdge_e (app : Mycelia) (e : Edge) : list GLCmd :=
  drawEdge app
    (getNodePosition (gCopy app) (source e))
    (getNodePosition (gCopy app) (target e))
    (EdgeMaterialFromId (material e))
    (edgeThickness app * weight e)%Q
    true
    (isBidirectional (gCopy app) (source e) (target e)).

(** *** [Mycelia::drawEdges] *)

(** The segments drawn for one bundled edge: [segment] runs from 0 to
    [getSegmentCount()] inclusive. *)
Definition bundleSegments (app : Mycelia) (edge : Z) : list EdgeCall :=
  let e := getEdge (gCopy app) edge in
  let m := EdgeMaterial edge in
  let width := (edgeThickness app * weight e)%Q in
  map (fun k =>
         let segment := Z.of_nat k in
         CallDrawSegment
           (getSegment (edgeBundler app) edge segment)
           (getSegment (edgeBundler app) edge (segment + 1))
           m width)
      (seq 0 (Z.to_nat (getSegmentCount (edgeBundler app) + 1))).

Fixpoint drawEdges_loop (app : Mycelia) (edges : list Z)
    (drawn : DrawnTable) : outcome (list EdgeCall) :=
  match edges with
  | [] => Done []
  | edge :: rest =>
      let e := getEdge (gCopy app) edge in
      if negb (isSelectedComponent app (source e))
      then drawEdges_loop app rest drawn
      else
        skip <- drawn_get drawn (source e) (target e) ;;
        if skip : bool
        then drawEdges_loop app rest drawn
        else if bundleButton app
        then
          calls <- drawEdges_loop app rest drawn ;;
          Done (bundleSegments app edge ++ calls)
        else
          drawn' <- drawn_set drawn (source e) (target e) ;;
          calls <- drawEdges_loop app rest drawn' ;;
          Done (CallDrawEdge e :: calls)
  end.

(** The calls of [drawEdge] the pass makes, in order. *)
Definition drawEdges_calls (app : Mycelia) : outcome (list EdgeCall) :=
  drawEdges_loop app (getEdges (gCopy app)) [].

Definition runEdgeCall (app : Mycelia) (c : EdgeCall) : list GLCmd :=
  match c with
  | CallDrawEdge e => drawEdge_e app e
  | CallDrawSegment p q m width => drawEdge app p q m width false false
  end.

Definition drawEdges (app : Mycelia) : outcome (list GLCmd) :=
  omap (flat_map (runEdgeCall app)) (drawEdges_calls app).

(** *** What the edge pass is measured by *)

(** An edge from [s] to [t]. *)
Definition joins (s t : Z) (e : Edge) : bool :=
  (source e =? s) && (target e =? t).

(** The calls of the [Edge] overload for an edge from [s] to [t]. *)
Definition callsBetween (s t : Z) (calls : list EdgeCall) : list EdgeCall :=
  filter (fun c => match c with
                   | CallDrawEdge e => joins s t e
                   | CallDrawSegment _ _ _ _ => false
                   end) calls.

(** The calls of the [Edge] overload for an edge between [s] and [t], in
    either direction. *)
Definition callsJoining (s t : Z) (calls : list EdgeCall) : list EdgeCall :=
  filter (fun c => match c with
                   | CallDrawEdge e => joins s t e || joins t s e
                   | CallDrawSegment _ _ _ _ => false
                   end) calls.

(** A call of the [Edge] overload, not a bundled segment. *)
Definition isEdgeCall (c : EdgeCall) : bool :=
  match c with
  | CallDrawEdge _ => true
  | CallDrawSegment _ _ _ _ => false
  end.

(** The first edge from [s] to [t] in the order of the graph. *)
Definition firstEdge (gr : Graph) (s t : Z) : option Z :=
  find (fun edge => joins s t (getEdge gr edge)) (getEdges gr).

(** Both endpoints of an edge index the table within its bounds. *)
Definition edgeInTable (gr : Graph) (edge : Z) : bool :=
  in_table (source (getEdge gr edge)) && in_table (target (getEdge gr edge)).

(** *** [Mycelia::drawTextureNode], [drawShapeNode], [drawNode] *)

(** Nothing is drawn, and [false] is returned, when the image has no
    texture (id 0); the quad itself depends on the viewer and is kept
    as one command. *)
Definition drawTextureNode (app : Mycelia) (node : Z) (d : DataItem)
    : bool * list GLCmd :=
  let imageId := getTextureId d (getNodeImagePath (gCopy app) node) in
  if imageId =? 0 then (false, [])
  else (true, [ glTextureQuad imageId node ]).

Definition drawShapeNode (app : Mycelia) (node : Z) : bool * list GLCmd :=
  let p := getNodePosition (gCopy app) node in
  let size := getNodeSize (gCopy app) node in
  let m :=
    if node =? selectedNode app
    then NodeMaterialFromId (MATERIAL_SELECTED hdr)
    else if node =? previousNode app
    then NodeMaterialFromId (MATERIAL_SELECTED_PREVIOUS hdr)
    else NodeMaterial node in
  (true,
   [ glMaterial m;
     glPushMatrix;
     glTranslatef (vx p) (vy p) (vz p);
     glScalef size size size;
     glCallList NodeList;
     glPopMatrix ]).

Definition drawNode (app : Mycelia) (node : Z) (d : DataItem)
    : list GLCmd :=
  let type := getNodeType (gCopy app) node in
  let '(success, texture) :=
    if String.eqb type "image"
    then drawTextureNode app node d
    else (false, []) in
  if String.eqb type "shape" || negb success
  then texture ++ snd (drawShapeNode app node)
  else texture.

(** *** [Mycelia::drawNodes] *)

Definition drawNodes (app : Mycelia) (d : DataItem) (filter : string)
    : list GLCmd :=
  flat_map
    (fun node =>
       if negb (isSelectedComponent app node) then []
       else if negb (String.eqb (getNodeType (gCopy app) node) filter)
       then drawNode app node d
       else [])
    (getNodes (gCopy app)).

(** *** [Mycelia::buildGraphList] *)

Definition buildGraphList (app : Mycelia) (d : DataItem)
    : outcome DataItem :=
  (* update version first in case of preemption *)
  let version := getVersion (gCopy app) in
  let nodes :=
    if String.eqb (getTextureNodeMode (gCopy app)) "align"
    then drawNodes app d "image"
    else drawNodes app d (drawNodes_filter hdr) in
  edges <- drawEdges app ;;
  Done (mkDataItem
          version
          [ gluSphere (nodeRadius app) ]
          [ gluCylinder (arrowWidth app) 0 (arrowHeight app);
            gluQuadricOrientation true;
            gluDisk 0 (arrowWidth app);
            gluQuadricOrientation false ]
          (nodes ++ edges)
          (getTextureId d)).

(** *** [Mycelia::drawShortestPath] *)

(** The walk of the [for] loop: the nodes at which the body runs to its
    end, each with the edge to its predecessor.  One unit of fuel pays
    for one test of the loop condition. *)
Fixpoint shortestPath_walk (fuel : nat) (app : Mycelia) (i : Z)
    : outcome (list (Z * Edge)) :=
  match fuel with
  | O => OutOfFuel
  | S fuel' =>
      if i =? previousNode app then Done []
      else
        p <- vector_at (predecessorVector app) i ;;
        if i =? p then Done []
        else
          let e := mkEdge i p (Edge_weight hdr) (MATERIAL_SELECTED hdr) in
          rest <- shortestPath_walk fuel' app p ;;
          Done ((i, e) :: rest)
  end.

Definition drawOverlay (app : Mycelia) (d : DataItem)
    (steps : list (Z * Edge)) : list GLCmd :=
  glMaterial (NodeMaterialFromId (MATERIAL_SELECTED hdr))
  :: flat_map (fun s => drawNode app (fst s) d ++ drawEdge_e app (snd s))
              steps.

Definition drawShortestPath (fuel : nat) (app : Mycelia) (d : DataItem)
    : outcome (list GLCmd) :=
  omap (drawOverlay app d) (shortestPath_walk fuel app (selectedNode app)).

(** *** [Mycelia::drawSpanningTree] *)

(** The body runs once for each index of the predecessor vector. *)
Fixpoint spanningTree_walk (i : Z) (preds : list Z) : list (Z * Edge) :=
  match preds with
  | [] => []
  | p :: rest =>
      (i, mkEdge i p (Edge_weight hdr) (Edge_material hdr))
      :: spanningTree_walk (i + 1) rest
  end.

Definition drawSpanningTree (app : Mycelia) (d : DataItem) : list GLCmd :=
  drawOverlay app d (spanningTree_walk 0 (predecessorVector app)).

(** *** What the overlay walks are measured by *)

(** The node reached from [i] after [k] steps to the predecessor. *)
Fixpoint follow (v : list Z) (k : nat) (i : Z) : Z :=
  match k with
  | O => i
  | S k' => follow v k' (nth (Z.to_nat i) v 0)
  end.

(** Every entry of a predecessor vector is the index of a node. *)
Definition validEntries (v : list Z) : Prop :=
  forall p, In p v -> 0 <= p < Z.of_nat (List.length v).

(** Whoever comes back to itself along the predecessors is its own
    predecessor: the vector has no cycle but the self-loops. *)
Definition selfLoopsOnly (v : list Z) : Prop :=
  forall i k,
    0 <= i < Z.of_nat (List.length v) -> (0 < k)%nat ->
    follow v k i = i -> nth (Z.to_nat i) v 0 = i.

(** *** [Mycelia::display] *)

(** Lines 668-699: what is drawn once the display lists are current. *)
Definition display_draw (fuel : nat) (app : Mycelia) (d : DataItem)
    : outcome (list GLCmd) :=
  if spanningTreeButton app
  then Done (drawSpanningTree app d)
  else
    path <- (if shortestPathButton app
             then drawShortestPath fuel app d
             else Done []) ;;
    Done ([ glCallList GraphList ]
          ++ (if String.eqb (getTextureNodeMode (gCopy app)) "align"
              then drawNodes app d "shape"
              else [])
          ++ [ glLighting false; glPushAttrib ]
          ++ drawNodeLabels ext app
          ++ drawEdgeLabels ext app
          ++ [ glPopAttrib; glLighting true ]
          ++ path).

Definition display (fuel : nat) (app : Mycelia) (d : DataItem)
    : outcome (DataItem * list GLCmd) :=
  if showingLogo app then Done (d, drawLogo ext)
  else
    (* re-create display list if it's been updated *)
    d' <- (if negb (graphListVersion d =? getVersion (gCopy app))
           then buildGraphList app d
           else Done d) ;;
    out <- display_draw fuel app d' ;;
    Done (d', out).

(** *** [Mycelia::frame]

    The copy of the graph taken once per frame, and the logo shown for
    an empty graph; the rotation of the logo and the navigation tool
    are left out. *)
Definition frame (app : Mycelia) : Mycelia :=
  set_frame (g app) (getNodeCount (g app) =? 0) app.

(** *** [Mycelia::selectNode(const Vrui::Point&)] *)

(** [dist2] of the loop at a node. *)
Definition pointDist2 (app : Mycelia) (clickPosition : Point) (node : Z)
    : float :=
  Float.of_double
    (Point_sqrDist num clickPosition (getNodePosition (g app) node)).

(** [minDist2] before the loop. *)
Definition pointBound (app : Mycelia) : float :=
  Float.of_double (Scalar_sqr num (nodeRadius app)).

Definition selectNode_point_step (app : Mycelia) (clickPosition : Point)
    (acc : Z * float) (node : Z) : Z * float :=
  let '(result, minDist2) := acc in
  let dist2 := pointDist2 app clickPosition node in
  if Math.ltb dist2 minDist2 then (node, dist2) else (result, minDist2).

Definition selectNode_point (app : Mycelia) (clickPosition : Point) : Z :=
  fst (fold_left (selectNode_point_step app clickPosition)
         (getNodes (g app))
         (SELECTION_NONE hdr, pointBound app)).

(** Point picking in the words of the specification, on the squared
    distances and the squared node radius as the exact numbers they are:
    a node of least squared distance when some node is strictly within
    the squared node radius, the sentinel when none is. *)
Definition specPointPicking (app : Mycelia) (clickPosition : Point) : Prop :=
  let dist2 n := sqrDist clickPosition (getNodePosition (g app) n) in
  let threshold := (nodeRadius app * nodeRadius app)%Q in
  let r := selectNode_point app clickPosition in
  ((exists n, In n (getNodes (g app)) /\ (dist2 n < threshold)%Q) ->
     In r (getNodes (g app)) /\ (dist2 r < threshold)%Q
     /\ forall n, In n (getNodes (g app)) -> (dist2 r <= dist2 n)%Q)
  /\ ((forall n, In n (getNodes (g app)) -> (threshold <= dist2 n)%Q) ->
        r = SELECTION_NONE hdr).

(** *** [Mycelia::selectNode(const Vrui::Ray&)] *)

(** [x] of the loop at a node: its forward projection onto the ray. *)
Definition rayX (app : Mycelia) (ray : Ray) (node : Z) : float :=
  Float.of_double (Ray_projection num ray (getNodePosition (g app) node)).

(** [y2] of the loop at a node: its squared offset from the ray. *)
Definition rayY2 (app : Mycelia) (ray : Ray) (node : Z) : float :=
  Float.of_double (Ray_sqrOffset num ray (getNodePosition (g app) node)).

(** [coneAngle2] before the loop. *)
Definition rayConeAngle2 (app : Mycelia) : float :=
  Float.of_double (Scalar_sqr num (coneAngle app)).

(** The state of the loop: [result], [lambdaMin], and a log, which the
    source does not keep, of the divisors of the divisions it made. *)
Record RayScan : Type := mkRayScan {
  scanResult : Z;
  lambdaMin : float;
  divisors : list float
}.

(** A divisor other than zero. *)
Definition nonzero (d : float) : Prop := Math.isZero d = false.

Definition selectNode_ray_step (app : Mycelia) (ray : Ray)
    (acc : RayScan) (node : Z) : RayScan :=
  let x := rayX app ray node in
  if Math.geb x Math.zero && Math.ltb x (lambdaMin acc)
  then
    let y2 := rayY2 app ray node in
    let log := divisors acc ++ [Math.sqr x] in
    if Math.leb (Math.div y2 (Math.sqr x)) (rayConeAngle2 app)
    then mkRayScan node x log
    else mkRayScan (scanResult acc) (lambdaMin acc) log
  else acc.

Definition selectNode_ray_scan (app : Mycelia) (ray : Ray) : RayScan :=
  fold_left (selectNode_ray_step app ray) (getNodes (g app))
            (mkRayScan (SELECTION_NONE hdr) Math.FLT_MAX []).

Definition selectNode_ray (app : Mycelia) (ray : Ray) : Z :=
  scanResult (selectNode_ray_scan app ray).

(** The cone test of the loop at a node, as the source evaluates it. *)
Definition coneTest (app : Mycelia) (ray : Ray) (node : Z) : bool :=
  Math.leb (Math.div (rayY2 app ray node) (Math.sqr (rayX app ray node)))
           (rayConeAngle2 app).

(** The nodes the loop can select: [x >= 0], [x] below the initial
    [lambdaMin], and the cone test passed. *)
Definition rayCandidate (app : Mycelia) (ray : Ray) (node : Z) : Prop :=
  Math.geb (rayX app ray node) Math.zero = true
  /\ Math.ltb (rayX app ray node) Math.FLT_MAX = true
  /\ coneTest app ray node = true.

(** The forward projection and the squared offset of a node as the exact
    numbers they are. *)
Definition rayProjection (app : Mycelia) (ray : Ray) (node : Z) : Q :=
  dot (sub (getNodePosition (g app) node) (getOrigin ray))
      (getDirection ray).

Definition rayOffset2 (app : Mycelia) (ray : Ray) (node : Z) : Q :=
  Geometry.sqr (cross (sub (getNodePosition (g app) node) (getOrigin ray))
                      (getDirection ray)).

(** The candidates in the words of the specification, on exact numbers:
    [x >= 0] and the squared offset divided by [x * x] within the squared
    cone angle. *)
Definition specCandidate (app : Mycelia) (ray : Ray) (node : Z) : Prop :=
  let x := rayProjection app ray node in
  (0 <= x)%Q
  /\ ~ (x * x == 0)%Q
  /\ (rayOffset2 app ray node / (x * x) <= coneAngle app * coneAngle app)%Q.

(** Ray picking in the words of the specification: when some node is a
    candidate, the result is a candidate nearest along the ray. *)
Definition specRayPicking (app : Mycelia) (ray : Ray) : Prop :=
  (exists n, In n (getNodes (g app)) /\ specCandidate app ray n) ->
  In (selectNode_ray app ray) (getNodes (g app))
  /\ specCandidate app ray (selectNode_ray app ray)
  /\ forall n, In n (getNodes (g app)) -> specCandidate app ray n ->
       (rayProjection app ray (selectNode_ray app ray)
        <= rayProjection app ray n)%Q.

(** *** [Mycelia::shortestPathCallback], [setSelectedNode] *)

Definition shortestPathCallback (app : Mycelia) : Mycelia :=
  if shortestPathButton app
  then
    if negb (previousNode app =? SELECTION_NONE hdr)
       && negb (selectedNode app =? SELECTION_NONE hdr)
    then set_predecessorVector (getShortestPath ext (g app)) app
    else set_shortestPathButton false app
  else app.

Definition setSelectedNode (app : Mycelia) (node : Z) : Mycelia :=
  if negb (isValidNode (g app) node)
  then set_cout (cout app ++ [ InvalidNodeSelected node ]) app
  else
    let app1 :=
      if nodeInfoButton app
      then set_nodeWindow (getNodeAttributes ext (g app) node) app
      else app in
    let app2 := set_selection node (selectedNode app1) app1 in
    let app3 := shortestPathCallback app2 in
    set_g (update ext (g app3)) app3.

(** *** The layout workers *)

(** Modelled from the spec: [start] of the layout classes
    ([layout/*.hpp], absent).  A worker goes from Stopped to Running on
    start, and stays Running when started again. *)
Definition Layout_start (w : LifeCycle) : LifeCycle := Running.

(** Modelled from the spec: [stop] of the layout classes ([layout/*.hpp],
    absent).  A worker is Stopped when stop returns. *)
Definition Layout_stop (w : LifeCycle) : LifeCycle := Stopped.

(** Modelled from the spec: [EdgeBundler::start] ([layout/edgebundler.hpp],
    absent), with the life cycle of a layout. *)
Definition EdgeBundler_start (b : EdgeBundler) : EdgeBundler :=
  mkEdgeBundler (Layout_start (bundlerState b))
                (getSegmentCount b) (getSegment b).

(** Modelled from the spec: [EdgeBundler::stop] ([layout/edgebundler.hpp],
    absent), with the life cycle of a layout. *)
Definition EdgeBundler_stop (b : EdgeBundler) : EdgeBundler :=
  mkEdgeBundler (Layout_stop (bundlerState b))
                (getSegmentCount b) (getSegment b).

(** Modelled from the spec: [isStopped] of the layout classes
    ([layout/graphlayout.hpp], absent), asked of the current layout. *)
Definition layout_isStopped (app : Mycelia) : bool :=
  match layout app with
  | StaticLayoutRef =>
      match staticLayout app with Stopped => true | Running => false end
  | DynamicLayoutRef =>
      match dynamicLayout app with Stopped => true | Running => false end
  end.

(** Modelled from the spec: [isDynamic] of the layout classes
    ([layout/graphlayout.hpp], absent), asked of the current layout. *)
Definition layout_isDynamic (app : Mycelia) : bool :=
  match layout app with
  | StaticLayoutRef => false
  | DynamicLayoutRef => true
  end.

(** [layout != dynamicLayout], [layout != staticLayout]. *)
Definition layout_ne (a b : LayoutRef) : bool :=
  match a, b with
  | StaticLayoutRef, StaticLayoutRef => false
  | DynamicLayoutRef, DynamicLayoutRef => false
  | _, _ => true
  end.

(** *** [startLayout], [stopLayout], [resumeLayout], [setSkipLayout] *)

Definition startLayout (app : Mycelia) : Mycelia :=
  match layout app with
  | StaticLayoutRef =>
      set_staticLayout (Layout_start (staticLayout app)) app
  | DynamicLayoutRef =>
      set_dynamicLayout (Layout_start (dynamicLayout app)) app
  end.

Definition stopLayout (app : Mycelia) : Mycelia :=
  let app1 := set_edgeBundler (EdgeBundler_stop (edgeBundler app)) app in
  let app2 := set_staticLayout (Layout_stop (staticLayout app1)) app1 in
  set_dynamicLayout (Layout_stop (dynamicLayout app2)) app2.

Definition resumeLayout (app : Mycelia) : Mycelia :=
  if layout_isDynamic app && negb (skipLayout app)
  then startLayout app
  else app.

Definition setSkipLayout (app : Mycelia) (skip : bool) : Mycelia :=
  set_skipLayout skip app.

(** *** [Mycelia::setLayoutType] *)

Definition setLayoutType (app : Mycelia) (type : Z) : Mycelia :=
  if type =? LAYOUT_DYNAMIC hdr
  then
    let app1 := set_edgeBundler (EdgeBundler_stop (edgeBundler app)) app in
    let app2 := set_bundleButton false app1 in
    let app3 := set_layoutRadioBox 1 app2 in
    let app4 :=
      if layout_ne (layout app3) DynamicLayoutRef
      then stopLayout app3      (* Then we are switching layouts! *)
      else app3 in
    set_layoutWindow true (set_layout DynamicLayoutRef app4)
  else if type =? LAYOUT_STATIC hdr
  then
    let app1 := set_layoutRadioBox 0 app in
    let app2 :=
      if layout_ne (layout app1) StaticLayoutRef
      then stopLayout app1      (* Then we are switching layouts! *)
      else app1 in
    set_layoutWindow false (set_layout StaticLayoutRef app2)
  else app.

(** *** [Mycelia::bundleCallback] *)

Definition bundleCallback (app : Mycelia) (set : bool) : Mycelia :=
  if getNodeCount (g app) =? 0 then app
  else if set
  then
    let app1 := stopLayout app in
    set_edgeBundler (EdgeBundler_start (edgeBundler app1)) app1
  else
    let app1 := set_edgeBundler (EdgeBundler_stop (edgeBundler app)) app in
    let app2 := set_g (update ext (g app1)) app1 in
    resumeLayout app2.

(** *** [Mycelia::resetNavigationCallback] *)

Definition resetNavigationCallback (app : Mycelia) : Mycelia :=
  let layoutWasRunning := negb (layout_isStopped app) in
  let app1 := stopLayout app in
  let '(center, radius) := locate ext (g app1) in
  let shift := mkVector (- vx center)%Q (- vy center)%Q (- vz center)%Q in
  let app2 := set_g (moveNodes ext shift (g app1)) app1 in
  let nodeRadius' := (radius / 80)%Q in
  let arrowHeight' := (nodeRadius' / 2)%Q in
  let arrowWidth' := (arrowHeight' / 2)%Q in
  let edgeThickness' := (nodeRadius' / 7)%Q in
  let edgeOffset' := (nodeRadius' + arrowHeight')%Q in
  let app3 :=
    set_sizes nodeRadius' arrowHeight' arrowWidth' edgeThickness'
              edgeOffset' app2 in
  let app4 := set_g (update ext (g app3)) app3 in
  if layoutWasRunning
  then resumeLayout app4    (* for dynamic layout *)
  else app4.

(** *** [Mycelia::resetLayout], without CUDA *)

(** [staticButton->getToggle()]: the static toggle is the first of the
    radio box. *)
Definition staticButton (app : Mycelia) : bool := layoutRadioBox app =? 0.

Definition resetLayout (app : Mycelia) (watch : bool) : Mycelia :=
  let app1 := stopLayout app in
  let app2 := set_bundleButton false app1 in
  let app3 :=
    if staticButton app2
    then setLayoutType app2 (LAYOUT_STATIC hdr)
    else setLayoutType app2 (LAYOUT_DYNAMIC hdr) in
  let size := getNodeCount (g app3) in
  if skipLayout app3 || (size =? 0) then app3
  else
    let app4 :=
      set_g (clearVelocities ext (randomizePositions ext 100 (g app3)))
            app3 in
    let app5 := if watch then resetNavigationCallback app4 else app4 in
    startLayout app5.

Definition resetLayoutCallback (app : Mycelia) : Mycelia :=
  resetLayout app (resetLayout_watch hdr).

(** *** The operations on the layout life cycle

    The calls the user interface, the tools, the parsers and the
    generators make, and the one step a worker takes by itself: a static
    layout stops when it has converged. *)
Inductive Op : Type :=
| OpSetLayoutType (type : Z)
| OpBundle (set : bool)             (* the bundle toggle and its callback *)
| OpLayoutRadio (toggle : Z)        (* the radio box and its callback *)
| OpResetLayout (watch : bool)
| OpResetNavigation
| OpStartLayout
| OpStopLayout
| OpResumeLayout
| OpSetSkipLayout (skip : bool)
| OpStaticConverged.

Definition exec (op : Op) (app : Mycelia) : Mycelia :=
  match op with
  | OpSetLayoutType type => setLayoutType app type
  | OpBundle set => bundleCallback (set_bundleButton set app) set
  | OpLayoutRadio toggle =>
      resetLayoutCallback (set_layoutRadioBox toggle app)
  | OpResetLayout watch => resetLayout app watch
  | OpResetNavigation => resetNavigationCallback app
  | OpStartLayout => startLayout app
  | OpStopLayout => stopLayout app
  | OpResumeLayout => resumeLayout app
  | OpSetSkipLayout skip => setSkipLayout app skip
  | OpStaticConverged => set_staticLayout Stopped app
  end.

Definition run (ops : list Op) (app : Mycelia) : Mycelia :=
  fold_left (fun a op => exec op a) ops app.

Definition isRunning (w : LifeCycle) : bool :=
  match w with Running => true | Stopped => false end.

(** How many of the static layout, the dynamic layout and the edge
    bundler are running. *)
Definition runningCount (app : Mycelia) : nat :=
  ((if isRunning (staticLayout app) then 1 else 0)
   + (if isRunning (dynamicLayout app) then 1 else 0)
   + (if isRunning (bundlerState (edgeBundler app)) then 1 else 0))%nat.

(** At most one worker runs, and a layout that runs is the current one. *)
Definition coherent (app : Mycelia) : bool :=
  match staticLayout app, dynamicLayout app,
        bundlerState (edgeBundler app), layout app with
  | Stopped, Stopped, _, _ => true
  | Running, Stopped, Stopped, StaticLayoutRef => true
  | Stopped, Running, Stopped, DynamicLayoutRef => true
  | _, _, _, _ => false
  end.

(** [startLayout] and [resumeLayout] called by themselves, only while the
    edge bundler is stopped; every other operation at any time. *)
Definition guarded (op : Op) (app : Mycelia) : Prop :=
  match op with
  | OpStartLayout | OpResumeLayout =>
      bundlerState (edgeBundler app) = Stopped
  | _ => True
  end.

(** The states reached from [init] by guarded operations. *)
Inductive reachable (init : Mycelia) : Mycelia -> Prop :=
| reach_init : reachable init init
| reach_step (app : Mycelia) (op : Op) :
    reachable init app -> guarded op app -> reachable init (exec op app).

(** *** [Mycelia::pythonCallback] *)

(** Queries of [graph.hpp] that the callback makes of the graph copy. *)
Record Queries : Type := mkQueries {
  hasEdge : Graph -> Z -> Z -> bool;
  getNodeDegree : Graph -> Z -> Z;
  getBetweennessCentrality : Graph -> list Q
}.

(** The toggles of the plug-in radio box. *)
Inductive PlotButton : Type :=
| CentralityButton
| DegreeButton
| AdjacencyButton
| LanetButton.

(** What is written to the input file, item by item. *)
Inductive Token : Type :=
| TokenQ (q : Q)
| TokenZ (z : Z)
| TokenBool (b : bool).

(** The image window, with the lines of [/tmp/input.txt] it is loaded
    from. *)
Record ImageWindow : Type := mkImageWindow {
  inputFile : list (list Token);
  loadedScript : option string;
  imageShown : bool
}.

Fixpoint mapM {A B : Type} (f : A -> outcome B) (l : list A)
    : outcome (list B) :=
  match l with
  | [] => Done []
  | a :: rest =>
      b <- f a ;;
      bs <- mapM f rest ;;
      Done (b :: bs)
  end.

Fixpoint foldM {A S : Type} (f : S -> A -> outcome S) (l : list A) (s : S)
    : outcome S :=
  match l with
  | [] => Done s
  | a :: rest =>
      s' <- f s a ;;
      foldM f rest s'
  end.

(** [std::vector<double>::operator[]]. *)
Definition vector_at_Q (v : list Q) (i : Z) : outcome Q :=
  if (0 <=? i) && (i <? Z.of_nat (List.length v))
  then Done (nth (Z.to_nat i) v 0%Q)
  else OutOfBounds.

(** The indices [0 .. n - 1] of a counting loop. *)
Definition range (n : Z) : list Z := map Z.of_nat (seq 0 (Z.to_nat n)).

(** Lines 1030-1041: [bool a[1000][1000]], set at every pair of nodes the
    graph copy joins. *)
Definition adjacencyMark (qs : Queries) (gr : Graph) (a : DrawnTable)
    (pair : Z * Z) : outcome DrawnTable :=
  if hasEdge qs gr (fst pair) (snd pair)
  then drawn_set a (fst pair) (snd pair)
  else Done a.

Definition adjacencyTable (qs : Queries) (gr : Graph) : outcome DrawnTable :=
  foldM (adjacencyMark qs gr) (list_prod (getNodes gr) (getNodes gr)) [].

(** Lines 1043-1053: one line for each index below the node count, one
    item for each index below the node count. *)
Definition adjacencyRows (gr : Graph) (a : DrawnTable)
    : outcome (list (list Token)) :=
  mapM (fun source =>
          mapM (fun target => omap TokenBool (drawn_get a source target))
               (range (getNodeCount gr)))
       (range (getNodeCount gr)).

Definition pythonCallback (qs : Queries) (app : Mycelia) (w : ImageWindow)
    (newSelectedToggle : option PlotButton) : outcome ImageWindow :=
  if getNodeCount (g app) =? 0 then Done w
  else
    let copy := gCopy app in
    let hidden := mkImageWindow (inputFile w) (loadedScript w) false in
    let load lines script :=
      mkImageWindow lines (Some script) (imageShown hidden) in
    w' <- match newSelectedToggle with
          | Some CentralityButton =>
              let bc := getBetweennessCentrality qs copy in
              lines <- mapM (fun node =>
                               omap (fun q => [ TokenQ q ])
                                    (vector_at_Q bc node))
                            (getNodes copy) ;;
              Done (load lines "python/plugins/bc.py"%string)
          | Some DegreeButton =>
              Done (load (map (fun node =>
                                 [ TokenZ (getNodeDegree qs copy node) ])
                              (getNodes copy))
                         "python/plugins/degree.py"%string)
          | Some AdjacencyButton =>
              a <- adjacencyTable qs copy ;;
              lines <- adjacencyRows copy a ;;
              Done (load lines "python/plugins/adjmatrix.py"%string)
          | Some LanetButton =>
              Done (load (map (fun pair =>
                                 [ TokenZ (fst pair); TokenZ (snd pair) ])
                              (filter (fun pair =>
                                         hasEdge qs copy (fst pair) (snd pair))
                                      (list_prod (getNodes copy)
                                                 (getNodes copy))))
                         "python/plugins/lanet.py"%string)
          | None => Done hidden
          end ;;
    Done (match newSelectedToggle with
          | Some _ => mkImageWindow (inputFile w') (loadedScript w') true
          | None => w'
          end).

(** *** [Mycelia::clearSelections] *)

Definition clearSelections (app : Mycelia) : Mycelia :=
  let app1 := set_selection (SELECTION_NONE hdr) (SELECTION_NONE hdr) app in
  set_g (update ext (g app1)) app1.

(** *** The matrix stack

    The depth of the matrix stack after a list of commands run from the
    depth [depth]; [None] when a [glPopMatrix] finds the stack of these
    commands empty. *)
Fixpoint matrixDepth (cmds : list GLCmd) (depth : nat) : option nat :=
  match cmds with
  | [] => Some depth
  | glPushMatrix :: rest => matrixDepth rest (S depth)
  | glPopMatrix :: rest =>
      match depth with
      | O => None
      | S depth' => matrixDepth rest depth'
      end
  | _ :: rest => matrixDepth rest depth
  end.

(** Commands that pop what they push and nothing else. *)
Definition balanced (cmds : list GLCmd) : Prop :=
  forall depth, matrixDepth cmds depth = Some depth.

End Source.

(** ** Concrete instances

    A header, externals, graphs and application states on which the
    definitions above are evaluated. *)

Module Sample.

(** A header: the sentinel is -1, the static layout type 0 and the dynamic
    one 1, the selection materials 1 and 2, and [drawNodes] filters nothing
    by default. *)
Definition header : Header := mkHeader (-1) 0 1 1 2 "" true 1 0.

(** The magnitude of a vector that lies along one axis, which is its
    Euclidean length there. *)
Definition mag_axis (v : Vector) : Q := (Qabs (vx v) + Qabs (vy v) + Qabs (vz v))%Q.

Definition bump (gr : Graph) : Graph :=
  mkGraph (getNodes gr) (getNodePosition gr) (getNodeComponent gr)
    (getNodeType gr) (getNodeImagePath gr) (getNodeSize gr)
    (getNodeMaterial gr) (getEdges gr) (getEdge gr) (getVersion gr + 1)
    (getTextureNodeMode gr) (isBidirectional gr) (isValidNode gr).

Definition external : External :=
  mkExternal mag_axis (fun _ _ => 0%Q) bump (fun _ gr => gr) (fun gr => gr)
    (fun _ => (mkVector 0 0 0, 0%Q)) (fun _ gr => gr) (fun _ => [])
    (fun _ _ => []) [ glOther "logo" ] (fun _ => []) (fun _ => []).

Definition origin : Point := mkVector 0 0 0.

Fixpoint lookup {A : Type} (k : Z) (l : list (Z * A)) (d : A) : A :=
  match l with
  | [] => d
  | (k', a) :: rest => if k =? k' then a else lookup k rest d
  end.

Definition edge_ids (edges : list Edge) : list Z :=
  map Z.of_nat (seq 0 (List.length edges)).

(** The graph with the given positioned nodes and the given edges, whose
    ids are their ranks. *)
Definition graph (nodes : list (Z * Point)) (edges : list Edge)
    (version : Z) : Graph :=
  mkGraph (map fst nodes)
    (fun n => lookup n nodes origin)
    (fun _ => 0) (fun _ => "shape"%string) (fun _ => ""%string)
    (fun _ => 1%Q) (fun _ => 0)
    (edge_ids edges)
    (fun i => nth (Z.to_nat i) edges (mkEdge 0 0 1 0))
    version ""
    (fun s t =>
       existsb (fun e => (source e =? s) && (target e =? t)) edges
       && existsb (fun e => (source e =? t) && (target e =? s)) edges)
    (fun n => existsb (Z.eqb n) (map fst nodes)).

Definition bundler : EdgeBundler := mkEdgeBundler Stopped 0 (fun _ _ => origin).

(** The application as its constructor leaves it, on the given graph and
    its copy, with node radius 1. *)
Definition app (gr copy : Graph) : Mycelia :=
  mkMycelia gr copy StaticLayoutRef Stopped Stopped bundler false
    false false false false false 0 false [] false (-1) (-1)
    (5 # 1000) 1 (1 # 2) (1 # 4) (1 # 7) (3 # 2) [] [].

(** The same application with a cone angle of 0.01. *)
Definition tight (a : Mycelia) : Mycelia :=
  mkMycelia (g a) (gCopy a) (layout a) (staticLayout a) (dynamicLayout a)
    (edgeBundler a) (skipLayout a) (bundleButton a) (componentButton a)
    (nodeInfoButton a) (shortestPathButton a) (spanningTreeButton a)
    (layoutRadioBox a) (layoutWindow a) (nodeWindow a) (showingLogo a)
    (selectedNode a) (previousNode a) (1 # 100) (nodeRadius a)
    (arrowHeight a) (arrowWidth a) (edgeThickness a) (edgeOffset a)
    (predecessorVector a) (cout a).

Definition dataItem (version : Z) (graphList : list GLCmd) : DataItem :=
  mkDataItem version [] [] graphList (fun _ => 0).

(** Two nodes joined by an edge in each direction. *)
Definition opposite : Graph :=
  graph [(0, origin); (1, mkVector 10 0 0)]
        [mkEdge 0 1 1 0; mkEdge 1 0 1 0] 0.

(** One node and an edge to a node numbered 1000. *)
Definition wide : Graph :=
  graph [(0, origin)] [mkEdge 0 1000 1 0] 0.

(** The application on a graph of three nodes, with the given predecessor
    vector, selected node and previous node. *)
Definition walking (preds : list Z) (sel prev : Z) : Mycelia :=
  let gr := graph [(0, origin); (1, origin); (2, origin)] [] 0 in
  set_predecessorVector preds (set_selection sel prev (app gr gr)).

(** The queries answered from a list of edges. *)
Definition queries (edges : list Edge) : Queries :=
  mkQueries
    (fun _ s t => existsb (fun e => (source e =? s) && (target e =? t)) edges)
    (fun _ _ => 0)
    (fun _ => []).

(** An image window that shows nothing yet. *)
Definition window : ImageWindow := mkImageWindow [] None false.

(** Two nodes at the origin, numbered 0 and 1. *)
Definition pair : Graph := graph [(0, origin); (1, origin)] [] 0.

(** *** Vrui's templates in binary64

    The scalars as the doubles nearest to them, and the operations of
    [Math] and [Geometry] evaluated in binary64, one product or sum after
    the other. *)

Definition double_of_Z (z : Z) : double := binary_normalize 53 1024 z 0 false.

Definition double_of_Q (q : Q) : double :=
  SFdiv 53 1024 (double_of_Z (Qnum q)) (double_of_Z (Zpos (Qden q))).

Definition Vector64 : Type := (double * double * double)%type.

Definition vector64 (v : Vector) : Vector64 :=
  (double_of_Q (vx v), double_of_Q (vy v), double_of_Q (vz v)).

Definition sub64 (p q : Vector64) : Vector64 :=
  let '(px, py, pz) := p in
  let '(qx, qy, qz) := q in
  (SFsub 53 1024 px qx, SFsub 53 1024 py qy, SFsub 53 1024 pz qz).

Definition dot64 (a b : Vector64) : double :=
  let '(ax, ay, az) := a in
  let '(bx, by_, bz) := b in
  SFadd 53 1024
    (SFadd 53 1024 (SFmul 53 1024 ax bx) (SFmul 53 1024 ay by_))
    (SFmul 53 1024 az bz).

Definition cross64 (a b : Vector64) : Vector64 :=
  let '(ax, ay, az) := a in
  let '(bx, by_, bz) := b in
  (SFsub 53 1024 (SFmul 53 1024 ay bz) (SFmul 53 1024 az by_),
   SFsub 53 1024 (SFmul 53 1024 az bx) (SFmul 53 1024 ax bz),
   SFsub 53 1024 (SFmul 53 1024 ax by_) (SFmul 53 1024 ay bx)).

Definition numerics : Numerics :=
  mkNumerics
    (fun s => SFmul 53 1024 (double_of_Q s) (double_of_Q s))
    (fun p q => let v := sub64 (vector64 p) (vector64 q) in dot64 v v)
    (fun ray p =>
       dot64 (sub64 (vector64 p) (vector64 (getOrigin ray)))
             (vector64 (getDirection ray)))
    (fun ray p =>
       let c := cross64 (sub64 (vector64 p) (vector64 (getOrigin ray)))
                        (vector64 (getDirection ray)) in
       dot64 c c).

(** The largest finite [float] as a coordinate. *)
Definition far : Q := inject_Z ((2 ^ 24 - 1) * 2 ^ 104).

(** The application on one node, numbered 0, at the given position. *)
Definition lone (position : Point) : Mycelia :=
  app (graph [(0, position)] [] 0) (graph [] [] 0).

(** The ray from the origin along the first axis. *)
Definition axis : Ray := mkRay origin (mkVector 1 0 0).

End Sample.

(** * Properties *)

Section Properties.

Variable hdr : Header.
Variable ext : External.
Variable num : Numerics.

(** ** Comparisons of [float] *)

Ltac order_cases :=
  unfold Math.ltb, Math.leb, Math.geb, Math.zero, SFltb, SFleb, SFcompare in *;
  repeat match goal with
         | s : bool |- _ => destruct s
         end;
  try reflexivity; try discriminate;
  change (Pos.compare_cont Eq) with Pos.compare in *;
  repeat match goal with
         | |- context [Z.compare ?a ?b] =>
             destruct (Z.compare_spec a b); subst
         | H : context [Z.compare ?a ?b] |- _ =>
             destruct (Z.compare_spec a b); subst
         | |- context [Pos.compare ?a ?b] =>
             destruct (Pos.compare_spec a b); subst
         | H : context [Pos.compare ?a ?b] |- _ =>
             destruct (Pos.compare_spec a b); subst
         end;
  simpl in *; try reflexivity; try discriminate; try lia.

Lemma ltb_irrefl (a : float) : Math.ltb a a = false.
Proof. destruct a; order_cases. Qed.

Lemma ltb_trans (a b c : float) :
  Math.ltb a b = true -> Math.ltb b c = true -> Math.ltb a c = true.
Proof. destruct a, b, c; intros H1 H2; order_cases. Qed.

Lemma leb_ltb_trans (a b c : float) :
  Math.leb a b = true -> Math.ltb b c = true -> Math.ltb a c = true.
Proof. destruct a, b, c; intros H1 H2; order_cases. Qed.

Lemma ltb_antisym (a b : float) : Math.ltb a b = true -> Math.ltb b a = false.
Proof. destruct a, b; intros H1; order_cases. Qed.

Lemma ltb_not_leb (a b : float) : Math.ltb a b = true -> Math.leb b a = false.
Proof. destruct a, b; intros H1; order_cases. Qed.

(** A value not below a bound is not below a lower bound either. *)
Lemma ltb_stays_false (a b c : float) :
  Math.ltb a c = false -> Math.ltb b c = true -> Math.ltb a b = false.
Proof.
  intros Hac Hbc. destruct (Math.ltb a b) eqn:Hab; [|reflexivity].
  rewrite (ltb_trans _ _ _ Hab Hbc) in Hac. discriminate.
Qed.

(** A value at or below one that is below a bound is below the bound. *)
Lemma leb_stays_false (a b c : float) :
  Math.ltb a c = false -> Math.ltb b c = true -> Math.leb a b = false.
Proof.
  intros Hac Hbc. destruct (Math.leb a b) eqn:Hab; [|reflexivity].
  rewrite (leb_ltb_trans _ _ _ Hab Hbc) in Hac. discriminate.
Qed.

(** ** Zero among the [float] *)

Lemma binary_round_aux_zero (p em : Z) (sx : bool) (mx ex : Z) (lx : location) :
  Math.isZero (binary_round_aux p em sx mx ex lx) = true ->
  binary_round_aux p em sx mx ex lx = S754_zero sx.
Proof.
  unfold binary_round_aux.
  destruct (shr_fexp p em mx ex lx) as [mrs' e'].
  destruct (shr_fexp p em _ e' loc_Exact) as [mrs'' e''].
  destruct (shr_m mrs''); [reflexivity| |discriminate].
  destruct (Z.leb e'' (Z.sub em p)); discriminate.
Qed.

Lemma sqr_of_zero (x : float) :
  Math.isZero x = true -> Math.sqr x = Math.zero.
Proof. destruct x as [[|]|s| |s m e]; try discriminate; reflexivity. Qed.

(** A square that is zero is the positive zero. *)
Lemma sqr_zero_positive (x : float) :
  Math.isZero (Math.sqr x) = true -> Math.sqr x = Math.zero.
Proof.
  destruct x as [s|s| |s m e]; try discriminate.
  - intros _. apply sqr_of_zero. reflexivity.
  - unfold Math.sqr, SFmul. intro H.
    rewrite (binary_round_aux_zero _ _ _ _ _ _ H), xorb_nilpotent.
    reflexivity.
Qed.

Lemma geb_zero_positive (x : float) :
  Math.geb x Math.zero = true -> Math.isZero x = false ->
  Math.ltb Math.zero x = true.
Proof. destruct x; intros H1 H2; try discriminate; order_cases. Qed.

Lemma zero_geb_zero (x : float) :
  Math.isZero x = true -> Math.geb x Math.zero = true.
Proof. destruct x; intros H1; try discriminate; order_cases. Qed.

Lemma zero_ltb (x bound : float) :
  Math.isZero x = true -> Math.ltb Math.zero bound = true ->
  Math.ltb x bound = true.
Proof. destruct x, bound; intros H1 H2; try discriminate; order_cases. Qed.

(** A quotient by zero is within a bound only when the dividend is
    negative or the bound is the positive infinity. *)
Lemma leb_div_zero (y bound : float) :
  Math.leb (Math.div y Math.zero) bound = true ->
  Math.ltb y Math.zero = true \/ bound = S754_infinity false.
Proof.
  destruct y as [sy|sy| |sy my ey], bound as [sb|sb| |sb mb eb];
    try destruct sy; try destruct sb; simpl; intro H;
    try discriminate; auto.
Qed.

(** ** Point picking *)

Section PointPicking.

Variable app : Mycelia.
Variable click : Point.

Local Abbreviation dist2 := (pointDist2 num app click).

Lemma selectNode_point_step_eq (r : Z) (m : float) (node : Z) :
  selectNode_point_step num app click (r, m) node
  = if Math.ltb (dist2 node) m then (node, dist2 node) else (r, m).
Proof. reflexivity. Qed.

(** What a scan of [nodes] makes of the pair [(r, m)]: no scanned node
    is below the final bound, and the result is either kept with its
    bound or is a scanned node, with its [dist2] as the bound, strictly
    below the former bound. *)
Lemma selectNode_point_scan (nodes : list Z) (r : Z) (m : float) :
  let out := fold_left (selectNode_point_step num app click) nodes (r, m) in
  (forall n, In n nodes -> Math.ltb (dist2 n) (snd out) = false)
  /\ ((out = (r, m))
      \/ (In (fst out) nodes /\ snd out = dist2 (fst out)
          /\ Math.ltb (snd out) m = true)).
Proof.
  revert r m. induction nodes as [|node rest IH]; intros r m;
    cbv zeta; cbn [fold_left].
  - split; [intros n []|left; reflexivity].
  - rewrite selectNode_point_step_eq.
    destruct (Math.ltb (dist2 node) m) eqn:E.
    + destruct (IH node (dist2 node)) as [Hmin Hres].
      cbv zeta in Hmin, Hres.
      split.
      * intros n [<-|Hin]; [|auto].
        destruct Hres as [->|(_ & _ & Hlt)]; cbn [snd].
        -- apply ltb_irrefl.
        -- apply ltb_antisym, Hlt.
      * right. destruct Hres as [->|(Hin & Heq & Hlt)]; cbn [fst snd].
        -- split; [left; reflexivity|]. split; [reflexivity|exact E].
        -- split; [right; exact Hin|]. split; [exact Heq|].
           eapply ltb_trans; eauto.
    + destruct (IH r m) as [Hmin Hres].
      cbv zeta in Hmin, Hres.
      split.
      * intros n [<-|Hin]; [|auto].
        destruct Hres as [->|(_ & _ & Hlt)]; cbn [snd].
        -- exact E.
        -- eapply ltb_stays_false; eauto.
      * destruct Hres as [->|(Hin & Heq & Hlt)]; [left; reflexivity|right].
        split; [right; exact Hin|]. split; [exact Heq|exact Hlt].
Qed.

(** The same scan, with the place of the result in the list: a scan
    either keeps its state, no scanned node being below the bound, or
    ends on a scanned node that is below the bound, that no node before
    it is at or below, and that no node after it is below. *)
Lemma selectNode_point_scan_first (nodes : list Z) (r : Z) (m : float) :
  let out := fold_left (selectNode_point_step num app click) nodes (r, m) in
  (out = (r, m) /\ forall n, In n nodes -> Math.ltb (dist2 n) m = false)
  \/ (exists before after,
        nodes = before ++ fst out :: after
        /\ Math.ltb (dist2 (fst out)) m = true
        /\ (forall n, In n before ->
              Math.leb (dist2 n) (dist2 (fst out)) = false)
        /\ (forall n, In n after ->
              Math.ltb (dist2 n) (dist2 (fst out)) = false)).
Proof.
  revert r m. induction nodes as [|node rest IH]; intros r m;
    cbv zeta; cbn [fold_left].
  - left. split; [reflexivity|intros n []].
  - rewrite selectNode_point_step_eq.
    destruct (Math.ltb (dist2 node) m) eqn:E.
    + right.
      destruct (IH node (dist2 node))
        as [[Heq Hfar]|(before & after & Hsplit & Hlt & Hb & Ha)];
        cbv zeta in *.
      * rewrite Heq. exists [], rest. cbn [fst List.app].
        split; [reflexivity|]. split; [exact E|].
        split; [intros n []|exact Hfar].
      * exists (node :: before), after. rewrite Hsplit at 1.
        split; [reflexivity|]. split; [eapply ltb_trans; eauto|].
        split; [|exact Ha]. intros n [<-|Hn]; [|auto].
        apply ltb_not_leb, Hlt.
    + destruct (IH r m)
        as [[Heq Hfar]|(before & after & Hsplit & Hlt & Hb & Ha)];
        cbv zeta in *.
      * left. split; [exact Heq|]. intros n [<-|Hn]; auto.
      * right. exists (node :: before), after. rewrite Hsplit at 1.
        split; [reflexivity|]. split; [exact Hlt|].
        split; [|exact Ha]. intros n [<-|Hn]; [|auto].
        eapply leb_stays_false; eauto.
Qed.

End PointPicking.

(** ** Ray picking *)

Section RayPicking.

Variable app : Mycelia.
Variable ray : Ray.

Local Abbreviation x := (rayX num app ray).
Local Abbreviation inCone := (coneTest num app ray).
Local Abbreviation step := (selectNode_ray_step num app ray).

(** The three ways one iteration goes. *)
Lemma selectNode_ray_step_cases (acc : RayScan) (node : Z) :
  let log := divisors acc ++ [ Math.sqr (x node) ] in
  (Math.geb (x node) Math.zero = true
   /\ Math.ltb (x node) (lambdaMin acc) = true
   /\ inCone node = true
   /\ step acc node = mkRayScan node (x node) log)
  \/ (Math.geb (x node) Math.zero = true
      /\ Math.ltb (x node) (lambdaMin acc) = true
      /\ inCone node = false
      /\ step acc node = mkRayScan (scanResult acc) (lambdaMin acc) log)
  \/ ((Math.geb (x node) Math.zero = false
       \/ Math.ltb (x node) (lambdaMin acc) = false)
      /\ step acc node = acc).
Proof.
  intro log. unfold selectNode_ray_step. cbv zeta.
  change (Math.leb (Math.div (rayY2 num app ray node) (Math.sqr (x node)))
                   (rayConeAngle2 num app))
    with (inCone node).
  destruct (Math.geb (x node) Math.zero) eqn:Hge; cbn [andb].
  - destruct (Math.ltb (x node) (lambdaMin acc)) eqn:Hlt.
    + destruct (inCone node) eqn:Hcone.
      * left. auto.
      * right; left. auto.
    + right; right. auto.
  - right; right. auto.
Qed.

(** What a scan of [nodes] makes of a state: no scanned node that passes
    [x >= 0] and the cone test is below the final bound, and the result
    is either kept with its bound or is such a scanned node, with its [x]
    as the bound, strictly below the former bound. *)
Lemma selectNode_ray_scan_spec (nodes : list Z) (acc : RayScan) :
  let out := fold_left step nodes acc in
  (forall n, In n nodes -> Math.geb (x n) Math.zero = true ->
        inCone n = true -> Math.ltb (x n) (lambdaMin out) = false)
  /\ ((scanResult out = scanResult acc /\ lambdaMin out = lambdaMin acc)
      \/ (In (scanResult out) nodes
          /\ lambdaMin out = x (scanResult out)
          /\ Math.ltb (x (scanResult out)) (lambdaMin acc) = true
          /\ Math.geb (x (scanResult out)) Math.zero = true
          /\ inCone (scanResult out) = true)).
Proof.
  revert acc. induction nodes as [|node rest IH]; intros acc;
    cbv zeta; cbn [fold_left].
  - split; [intros n []|left; split; reflexivity].
  - destruct (selectNode_ray_step_cases acc node)
      as [(Hge & Hlt & Hcone & ->)|[(Hge & Hlt & Hcone & ->)|(Hout & ->)]].
    + destruct (IH (mkRayScan node (x node)
                      (divisors acc ++ [Math.sqr (x node)])))
        as (Hmin & Hres); cbv zeta in Hmin, Hres;
        cbn [scanResult lambdaMin] in Hres.
      split.
      * intros n [<-|Hin] Hn Hc; [|auto].
        destruct Hres as [[_ ->]|(_ & -> & Hlt' & _)].
        -- apply ltb_irrefl.
        -- apply ltb_antisym, Hlt'.
      * right. destruct Hres as [[-> ->]|(Hin & Heq & Hlt' & Hge' & Hc')].
        -- split; [left; reflexivity|]. split; [reflexivity|]. auto.
        -- split; [right; exact Hin|]. split; [exact Heq|].
           split; [eapply ltb_trans; eauto|]. auto.
    + destruct (IH (mkRayScan (scanResult acc) (lambdaMin acc)
                      (divisors acc ++ [Math.sqr (x node)])))
        as (Hmin & Hres); cbv zeta in Hmin, Hres;
        cbn [scanResult lambdaMin] in Hres.
      split.
      * intros n [<-|Hin] Hn Hc; [congruence|auto].
      * destruct Hres as [[Hr Hl]|(Hin & Heq & Hlt' & Hge' & Hc')];
          [left; auto|right].
        split; [right; exact Hin|]. auto.
    + destruct (IH acc) as (Hmin & Hres); cbv zeta in Hmin, Hres.
      split.
      * intros n [<-|Hin] Hn Hc; [|auto].
        destruct Hout as [Hneg|Hfar]; [congruence|].
        destruct Hres as [[_ ->]|(_ & Heq & Hlt' & _)]; [exact Hfar|].
        rewrite Heq. eapply ltb_stays_false; eauto.
      * destruct Hres as [[Hr Hl]|(Hin & Heq & Hlt' & Hge' & Hc')];
          [left; auto|right].
        split; [right; exact Hin|]. auto.
Qed.

(** The same scan, with the place of the result in the list. *)
Lemma selectNode_ray_scan_first (nodes : list Z) (acc : RayScan) :
  let out := fold_left step nodes acc in
  let inFront n := Math.geb (x n) Math.zero = true /\ inCone n = true in
  (scanResult out = scanResult acc
   /\ forall n, In n nodes -> inFront n ->
        Math.ltb (x n) (lambdaMin acc) = false)
  \/ (exists before after,
        nodes = before ++ scanResult out :: after
        /\ inFront (scanResult out)
        /\ Math.ltb (x (scanResult out)) (lambdaMin acc) = true
        /\ (forall n, In n before -> inFront n ->
              Math.leb (x n) (x (scanResult out)) = false)
        /\ (forall n, In n after -> inFront n ->
              Math.ltb (x n) (x (scanResult out)) = false)).
Proof.
  revert acc. induction nodes as [|node rest IH]; intros acc;
    cbv zeta; cbn [fold_left].
  - left. split; [reflexivity|intros n []].
  - destruct (selectNode_ray_step_cases acc node)
      as [(Hge & Hlt & Hcone & ->)|[(Hge & Hlt & Hcone & ->)|(Hout & ->)]].
    + right.
      destruct (IH (mkRayScan node (x node)
                      (divisors acc ++ [Math.sqr (x node)])))
        as [[Heq Hfar]|(before & after & Hsplit & Hin & Hlt' & Hb & Ha)];
        cbv zeta in *; cbn [scanResult lambdaMin] in *.
      * rewrite Heq. exists [], rest. cbn [List.app].
        split; [reflexivity|]. split; [auto|]. split; [exact Hlt|].
        split; [intros n []|exact Hfar].
      * exists (node :: before), after. rewrite Hsplit at 1.
        split; [reflexivity|]. split; [exact Hin|].
        split; [eapply ltb_trans; eauto|].
        split; [|exact Ha]. intros n [<-|Hn] Hf; [|auto].
        apply ltb_not_leb, Hlt'.
    + destruct (IH (mkRayScan (scanResult acc) (lambdaMin acc)
                      (divisors acc ++ [Math.sqr (x node)])))
        as [[Heq Hfar]|(before & after & Hsplit & Hin & Hlt' & Hb & Ha)];
        cbv zeta in *; cbn [scanResult lambdaMin] in *.
      * left. split; [exact Heq|]. intros n [<-|Hn] Hf; [|auto].
        destruct Hf as [_ Hc]. congruence.
      * right. exists (node :: before), after. rewrite Hsplit at 1.
        split; [reflexivity|]. split; [exact Hin|]. split; [exact Hlt'|].
        split; [|exact Ha]. intros n [<-|Hn] Hf; [|auto].
        destruct Hf as [_ Hc]. congruence.
    + destruct (IH acc)
        as [[Heq Hfar]|(before & after & Hsplit & Hin & Hlt' & Hb & Ha)];
        cbv zeta in *.
      * left. split; [exact Heq|]. intros n [<-|Hn] Hf; [|auto].
        destruct Hf as [Hf _]. destruct Hout as [Hneg|Hfar']; congruence.
      * right. exists (node :: before), after. rewrite Hsplit at 1.
        split; [reflexivity|]. split; [exact Hin|]. split; [exact Hlt'|].
        split; [|exact Ha]. intros n [<-|Hn] Hf; [|auto].
        destruct Hf as [Hf _]. destruct Hout as [Hneg|Hfar']; [congruence|].
        eapply leb_stays_false; eauto.
Qed.

(** One iteration keeps the log and adds at most one divisor to it. *)
Lemma selectNode_ray_step_log (acc : RayScan) (node : Z) :
  divisors (step acc node) = divisors acc
  \/ (Math.geb (x node) Math.zero = true
      /\ Math.ltb (x node) (lambdaMin acc) = true
      /\ divisors (step acc node) = divisors acc ++ [ Math.sqr (x node) ]).
Proof.
  destruct (selectNode_ray_step_cases acc node)
    as [(Hge & Hlt & _ & ->)|[(Hge & Hlt & _ & ->)|(_ & ->)]];
    cbn [divisors]; auto.
Qed.

(** Every divisor of a scan was in the log before it or is the square of
    the [x] of a scanned node that passed [x >= 0]. *)
Lemma selectNode_ray_scan_log (nodes : list Z) (acc : RayScan) (d : float) :
  In d (divisors (fold_left step nodes acc)) ->
  In d (divisors acc)
  \/ exists n, In n nodes /\ Math.geb (x n) Math.zero = true
               /\ d = Math.sqr (x n).
Proof.
  revert acc. induction nodes as [|node rest IH]; intros acc;
    cbn [fold_left]; [auto|].
  intro Hd. destruct (IH _ Hd) as [Hin|(n & Hn & Hge & Heq)].
  - destruct (selectNode_ray_step_log acc node) as [Hlog|(Hge & _ & Hlog)];
      rewrite Hlog in Hin; [auto|].
    apply in_app_or in Hin. destruct Hin as [Hin|[<-|[]]]; [auto|].
    right. exists node. split; [left; reflexivity|]. auto.
  - right. exists n. split; [right; exact Hn|]. auto.
Qed.

(** A scan keeps the divisors logged before it. *)
Lemma selectNode_ray_scan_grows (nodes : list Z) (acc : RayScan) (d : float) :
  In d (divisors acc) -> In d (divisors (fold_left step nodes acc)).
Proof.
  revert acc. induction nodes as [|node rest IH]; intros acc;
    cbn [fold_left]; [auto|].
  intro Hd. apply IH.
  destruct (selectNode_ray_step_log acc node) as [Hlog|(_ & _ & Hlog)];
    rewrite Hlog; [exact Hd|]. apply in_or_app. auto.
Qed.

(** The bound is above zero, or a division by zero has been made. *)
Let positiveOrDivided (acc : RayScan) : Prop :=
  Math.ltb Math.zero (lambdaMin acc) = true
  \/ exists d, In d (divisors acc) /\ Math.isZero d = true.

Lemma selectNode_ray_step_positive (acc : RayScan) (node : Z) :
  positiveOrDivided acc -> positiveOrDivided (step acc node).
Proof.
  unfold positiveOrDivided. intro Hinv.
  destruct (selectNode_ray_step_cases acc node)
    as [(Hge & Hlt & _ & ->)|[(Hge & Hlt & _ & ->)|(_ & ->)]];
    cbn [divisors lambdaMin]; [| |exact Hinv].
  - destruct (Math.isZero (x node)) eqn:Hz.
    + right. exists (Math.sqr (x node)).
      split; [apply in_or_app; right; left; reflexivity|].
      rewrite (sqr_of_zero _ Hz). reflexivity.
    + left. apply geb_zero_positive; assumption.
  - destruct Hinv as [Hpos|(d & Hd & Hz)]; [left; exact Hpos|right].
    exists d. split; [apply in_or_app; left; exact Hd|exact Hz].
Qed.

Lemma selectNode_ray_step_zero (acc : RayScan) (node : Z) :
  positiveOrDivided acc -> Math.isZero (x node) = true ->
  exists d, In d (divisors (step acc node)) /\ Math.isZero d = true.
Proof.
  unfold positiveOrDivided. intros [Hpos|(d & Hd & Hz)] Hx.
  - pose proof (zero_geb_zero _ Hx) as Hge.
    pose proof (zero_ltb _ _ Hx Hpos) as Hlt.
    exists (Math.sqr (x node)).
    split; [|rewrite (sqr_of_zero _ Hx); reflexivity].
    destruct (selectNode_ray_step_cases acc node)
      as [(_ & _ & _ & ->)|[(_ & _ & _ & ->)|([Hneg|Hfar] & _)]];
      cbn [divisors]; try congruence;
      apply in_or_app; right; left; reflexivity.
  - exists d. split; [|exact Hz].
    destruct (selectNode_ray_step_log acc node) as [Hlog|(_ & _ & Hlog)];
      rewrite Hlog; [exact Hd|]. apply in_or_app. auto.
Qed.

(** A scan over a node whose [x] is zero divides by zero. *)
Lemma selectNode_ray_scan_zero (nodes : list Z) (acc : RayScan) :
  positiveOrDivided acc ->
  (exists n, In n nodes /\ Math.isZero (x n) = true) ->
  exists d, In d (divisors (fold_left step nodes acc))
            /\ Math.isZero d = true.
Proof.
  revert acc. induction nodes as [|node rest IH]; intros acc Hinv;
    cbn [fold_left].
  - intros (n & [] & _).
  - intros (n & [<-|Hn] & Hz).
    + destruct (selectNode_ray_step_zero acc node Hinv Hz) as (d & Hd & Hd0).
      exists d. split; [|exact Hd0]. apply selectNode_ray_scan_grows, Hd.
    + apply IH; [apply selectNode_ray_step_positive, Hinv|].
      exists n. auto.
Qed.

End RayPicking.

(** C2, amended.  Ray picking compares and divides in [float].  With [x]
    and [y2] as the loop stores them, it returns, among the nodes with
    [x >= 0], [x] below the largest finite [float] and
    [y2 / (x * x) <= coneAngle2], one that no other of them is below in
    [x], and the sentinel when there is none.  On a graph of one node
    with [x] = 5 and a squared cone angle in [0, 1/25), the node is
    selected when [y2] = 0 and is not when [y2] = 1. *)
Theorem selectNode_ray_nearest (app : Mycelia) (ray : Ray) :
  let x := rayX num app ray in
  let r := selectNode_ray hdr num app ray in
  ((exists n, In n (getNodes (g app)) /\ rayCandidate num app ray n) ->
     In r (getNodes (g app)) /\ rayCandidate num app ray r
     /\ forall n, In n (getNodes (g app)) -> rayCandidate num app ray n ->
          Math.ltb (x n) (x r) = false)
  /\ ((forall n, In n (getNodes (g app)) -> ~ rayCandidate num app ray n) ->
        r = SELECTION_NONE hdr)
  /\ (forall node,
        getNodes (g app) = [node] ->
        x node = Float.of_Z 5 ->
        Math.leb Math.zero (rayConeAngle2 num app) = true ->
        Math.ltb (rayConeAngle2 num app)
                 (Math.div (Float.of_Z 1) (Float.of_Z 25)) = true ->
        (rayY2 num app ray node = Math.zero -> r = node)
        /\ (rayY2 num app ray node = Float.of_Z 1 ->
            r = SELECTION_NONE hdr)).
Proof.
  intros x r.
  pose proof (selectNode_ray_scan_spec app ray (getNodes (g app))
                (mkRayScan (SELECTION_NONE hdr) Math.FLT_MAX []))
    as (Hmin & Hres).
  cbv zeta in Hmin, Hres. cbn [scanResult lambdaMin] in Hres.
  fold (selectNode_ray_scan hdr num app ray) in Hmin, Hres.
  fold (selectNode_ray hdr num app ray) in Hres. fold r in Hres.
  set (scan := selectNode_ray_scan hdr num app ray) in *.
  split; [|split].
  - intros (n & Hn & Hge & Hlt & Hc).
    destruct Hres as [[_ Heq]|(Hin & Heq & Hlt' & Hge' & Hc')].
    + specialize (Hmin n Hn Hge Hc). rewrite Heq in Hmin. congruence.
    + split; [exact Hin|]. split; [repeat split; assumption|].
      intros m Hm (Hgem & _ & Hcm). unfold x. rewrite <- Heq.
      apply Hmin; assumption.
  - intros Hno.
    destruct Hres as [[Heq _]|(Hin & Heq & Hlt' & Hge' & Hc')]; [exact Heq|].
    exfalso. apply (Hno r Hin). repeat split; assumption.
  - intros node Hnodes Hx Hpos Htight. clear Hmin Hres. subst r scan.
    unfold selectNode_ray, selectNode_ray_scan.
    rewrite Hnodes. cbn [fold_left].
    unfold selectNode_ray_step. cbv zeta. cbn [lambdaMin scanResult divisors].
    fold (x node). rewrite Hx.
    change (Math.geb (Float.of_Z 5) Math.zero
            && Math.ltb (Float.of_Z 5) Math.FLT_MAX) with true.
    cbv iota.
    change (Math.sqr (Float.of_Z 5)) with (Float.of_Z 25).
    split; intros ->.
    + change (Math.div Math.zero (Float.of_Z 25)) with Math.zero.
      rewrite Hpos. reflexivity.
    + rewrite (ltb_not_leb _ _ Htight). reflexivity.
Qed.

(** C10, amended.  The divisor of the cone test is the square of [x] in
    [float].  Every division of ray picking has the square of the [x] of
    a node that passed [x >= 0] as its divisor; no division is by zero
    when that square is other than zero for each such node; a node whose
    [x] is zero makes the loop divide by zero.  When no [y2] is negative
    and the squared cone angle is not the positive infinity, the result
    is the sentinel or a node whose [x] is above zero and has a square
    other than zero. *)
Theorem selectNode_ray_division (app : Mycelia) (ray : Ray) :
  let x := rayX num app ray in
  let scan := selectNode_ray_scan hdr num app ray in
  let r := selectNode_ray hdr num app ray in
  (forall d, In d (divisors scan) ->
     exists n, In n (getNodes (g app))
               /\ Math.geb (x n) Math.zero = true /\ d = Math.sqr (x n))
  /\ ((forall n, In n (getNodes (g app)) ->
         Math.geb (x n) Math.zero = true -> nonzero (Math.sqr (x n))) ->
      Forall nonzero (divisors scan))
  /\ ((exists n, In n (getNodes (g app)) /\ Math.isZero (x n) = true) ->
      ~ Forall nonzero (divisors scan))
  /\ ((forall n, In n (getNodes (g app)) ->
         Math.ltb (rayY2 num app ray n) Math.zero = false) ->
      rayConeAngle2 num app <> S754_infinity false ->
      r = SELECTION_NONE hdr
      \/ (In r (getNodes (g app))
          /\ nonzero (Math.sqr (x r))
          /\ Math.ltb Math.zero (x r) = true)).
Proof.
  intros x scan r.
  assert (Hlog : forall d, In d (divisors scan) ->
            exists n, In n (getNodes (g app))
                      /\ Math.geb (x n) Math.zero = true
                      /\ d = Math.sqr (x n)).
  { intros d Hd.
    destruct (selectNode_ray_scan_log app ray _ _ d Hd) as [[]|H]. exact H. }
  split; [exact Hlog|]. split; [|split].
  - intros Hpre. apply Forall_forall. intros d Hd.
    destruct (Hlog d Hd) as (n & Hn & Hge & ->). apply Hpre; assumption.
  - intros Hzero Hall.
    destruct (selectNode_ray_scan_zero app ray (getNodes (g app))
                (mkRayScan (SELECTION_NONE hdr) Math.FLT_MAX [])
                (or_introl eq_refl) Hzero) as (d & Hd & Hz).
    rewrite Forall_forall in Hall. specialize (Hall d Hd).
    unfold nonzero in Hall. congruence.
  - intros Hy2 Hcone.
    pose proof (selectNode_ray_scan_spec app ray (getNodes (g app))
                  (mkRayScan (SELECTION_NONE hdr) Math.FLT_MAX []))
      as (_ & Hres).
    cbv zeta in Hres. cbn [scanResult lambdaMin] in Hres.
    fold (selectNode_ray_scan hdr num app ray) in Hres.
    fold (selectNode_ray hdr num app ray) in Hres. fold r in Hres.
    destruct Hres as [[Heq _]|(Hin & _ & _ & Hge & Hc)]; [left; exact Heq|].
    right. split; [exact Hin|].
    assert (Hnz : nonzero (Math.sqr (x r))).
    { unfold nonzero. destruct (Math.isZero (Math.sqr (x r))) eqn:Hz;
        [exfalso|reflexivity].
      apply sqr_zero_positive in Hz. unfold coneTest in Hc.
      fold (x r) in Hc. rewrite Hz in Hc.
      destruct (leb_div_zero _ _ Hc) as [Hneg|Hinf]; [|contradiction].
      rewrite (Hy2 r Hin) in Hneg. discriminate. }
    split; [exact Hnz|].
    apply geb_zero_positive; [exact Hge|].
    destruct (Math.isZero (x r)) eqn:Hz; [|reflexivity].
    unfold nonzero in Hnz. rewrite (sqr_of_zero _ Hz) in Hnz. discriminate.
Qed.

(** C3, amended.  Point picking compares in [float].  With [dist2] and
    the squared node radius as the source stores them, it returns a node
    whose [dist2] is below the squared node radius and that no node is
    below in [dist2], when there is one, and the sentinel otherwise, the
    empty graph included.  On a graph of one node with the squared node
    radius 1, a query with [dist2] = 1/4 selects the node and a query
    with [dist2] = 4 selects none. *)
Theorem selectNode_point_nearest (app : Mycelia) (click : Point) :
  let dist2 := pointDist2 num app click in
  let threshold := pointBound num app in
  let r := selectNode_point hdr num app click in
  ((exists n, In n (getNodes (g app))
              /\ Math.ltb (dist2 n) threshold = true) ->
     In r (getNodes (g app)) /\ Math.ltb (dist2 r) threshold = true
     /\ forall n, In n (getNodes (g app)) ->
          Math.ltb (dist2 n) (dist2 r) = false)
  /\ ((forall n, In n (getNodes (g app)) ->
         Math.ltb (dist2 n) threshold = false) ->
        r = SELECTION_NONE hdr)
  /\ (getNodes (g app) = [] -> r = SELECTION_NONE hdr)
  /\ (forall node,
        getNodes (g app) = [node] ->
        threshold = Float.of_Z 1 ->
        (dist2 node = Math.div (Float.of_Z 1) (Float.of_Z 4) -> r = node)
        /\ (dist2 node = Float.of_Z 4 -> r = SELECTION_NONE hdr)).
Proof.
  intros dist2 threshold r.
  pose proof (selectNode_point_scan app click (getNodes (g app))
                (SELECTION_NONE hdr) threshold) as [Hmin Hres].
  cbv zeta in Hmin, Hres.
  subst r threshold dist2. unfold selectNode_point.
  set (out := fold_left _ _ _) in *.
  assert (Hnone : (forall n, In n (getNodes (g app)) ->
                     Math.ltb (pointDist2 num app click n)
                              (pointBound num app) = false) ->
                  fst out = SELECTION_NONE hdr).
  { intros Hfar.
    destruct Hres as [->|(Hin & Heq & Hlt)]; [reflexivity|].
    rewrite Heq, (Hfar _ Hin) in Hlt. discriminate. }
  split; [|split; [exact Hnone|split]].
  - intros (n & Hn & Hlt).
    destruct Hres as [Heq|(Hin & Heq & Hlt')].
    + specialize (Hmin n Hn). rewrite Heq in Hmin. cbn [snd] in Hmin.
      congruence.
    + split; [exact Hin|]. split; [rewrite <- Heq; exact Hlt'|].
      intros m Hm. rewrite <- Heq. apply Hmin, Hm.
  - intros Hnil. apply Hnone. rewrite Hnil. intros n [].
  - intros node Hnodes Hrad. clear Hmin Hres Hnone. subst out.
    rewrite Hnodes, Hrad. cbn [fold_left].
    rewrite selectNode_point_step_eq.
    split; intros ->; reflexivity.
Qed.

(** ** Edge geometry *)

(** C7.  [drawEdge] places the cylinder at [sourceOffset] along the edge
    and gives it the length [targetOffset].  With an arrow on an edge of a
    bidirectional pair, both ends are shortened by the edge offset; with an
    arrow otherwise, only the target end is; without arrows the cylinder
    spans the edge.  The arrowhead is drawn exactly when arrows are on. *)
Theorem drawEdge_foreshortening (app : Mycelia) (src tgt : Point)
    (m : MaterialRef) (thickness : Q) (drawArrow isBidir : bool) :
  let length := mag ext (sub tgt src) in
  let sourceOffset := fst (edgeOffsets app length drawArrow isBidir) in
  let cylinder := snd (edgeOffsets app length drawArrow isBidir) in
  let targetGap := (length - (sourceOffset + cylinder))%Q in
  let cmds := drawEdge ext app src tgt m thickness drawArrow isBidir in
  (exists rotate,
     firstn 6 cmds
     = [ glMaterial m; glPushMatrix;
         glTranslatef (vx src) (vy src) (vz src); rotate;
         glTranslatef 0 0 sourceOffset;
         gluCylinder thickness thickness cylinder ])
  /\ (drawArrow = true -> isBidir = true ->
        sourceOffset = edgeOffset app
        /\ cylinder = (length - 2 * edgeOffset app)%Q
        /\ (targetGap == edgeOffset app)%Q)
  /\ (drawArrow = true -> isBidir = false ->
        sourceOffset = 0%Q
        /\ cylinder = (length - edgeOffset app)%Q
        /\ (targetGap == edgeOffset app)%Q)
  /\ (drawArrow = false ->
        sourceOffset = 0%Q /\ cylinder = length /\ (targetGap == 0)%Q)
  /\ (In (glCallList ArrowList) cmds <-> drawArrow = true).
Proof.
  intros length sourceOffset cylinder targetGap cmds.
  subst cmds targetGap cylinder sourceOffset. unfold drawEdge.
  fold length. destruct (edgeOffsets app length drawArrow isBidir)
    as [so to] eqn:E. simpl fst; simpl snd.
  split; [eexists; reflexivity|].
  unfold edgeOffsets in E.
  split; [|split; [|split]].
  - intros -> ->. simpl in E. inversion E; subst. repeat split. ring.
  - intros -> ->. simpl in E. inversion E; subst. repeat split. ring.
  - intros ->. rewrite andb_false_r in E. inversion E; subst.
    repeat split. ring.
  - destruct drawArrow; simpl.
    + split; [reflexivity|]. intros _.
      do 7 right. left. reflexivity.
    + split; [|discriminate].
      intros H. repeat (destruct H as [H|H]; [discriminate|]).
      destruct H.
Qed.

(** ** Node selection *)

(** C8.  Selecting a node the graph does not hold leaves the application
    as it was, selection and graph included, and writes the diagnostic. *)
Theorem setSelectedNode_invalid (app : Mycelia) (node : Z) :
  isValidNode (g app) node = false ->
  let app' := setSelectedNode hdr ext app node in
  app' = set_cout (cout app ++ [ InvalidNodeSelected node ]) app
  /\ selectedNode app' = selectedNode app
  /\ previousNode app' = previousNode app
  /\ g app' = g app
  /\ predecessorVector app' = predecessorVector app
  /\ shortestPathButton app' = shortestPathButton app
  /\ nodeWindow app' = nodeWindow app
  /\ cout app' = cout app ++ [ InvalidNodeSelected node ].
Proof.
  intros Hinvalid app'. subst app'. unfold setSelectedNode.
  rewrite Hinvalid. simpl. repeat split.
Qed.

(** ** The edge pass *)

Lemma drawn_get_in (drawn : DrawnTable) (i j : Z) :
  in_table i && in_table j = true ->
  drawn_get drawn i j = Done (existsb (same_cell i j) drawn).
Proof. intro H. unfold drawn_get. rewrite H. reflexivity. Qed.

Lemma drawn_get_out (drawn : DrawnTable) (i j : Z) :
  in_table i && in_table j = false ->
  drawn_get drawn i j = OutOfBounds.
Proof. intro H. unfold drawn_get. rewrite H. reflexivity. Qed.

Lemma drawn_set_in (drawn : DrawnTable) (i j : Z) :
  in_table i && in_table j = true ->
  drawn_set drawn i j = Done ((i, j) :: drawn).
Proof. intro H. unfold drawn_set. rewrite H. reflexivity. Qed.

Lemma in_table_range (i : Z) : in_table i = true <-> 0 <= i < 1000.
Proof. unfold in_table, DRAWN_SIZE. lia. Qed.

Section EdgePass.

Variable app : Mycelia.

(** An edge whose source passes the component filter and one of whose
    endpoints lies outside the table. *)
Let offending (edge : Z) : Prop :=
  isSelectedComponent app (source (getEdge (gCopy app) edge)) = true
  /\ edgeInTable (gCopy app) edge = false.

(** One iteration either skips the edge, or leaves the table, or goes on
    with the rest and puts its own calls in front. *)
Lemma drawEdges_loop_step (edge : Z) (rest : list Z) (drawn : DrawnTable) :
  (~ offending edge
   /\ exists drawn' front,
        drawEdges_loop app (edge :: rest) drawn
        = omap (fun calls => front ++ calls)
               (drawEdges_loop app rest drawn'))
  \/ (offending edge
      /\ drawEdges_loop app (edge :: rest) drawn = OutOfBounds).
Proof.
  unfold offending, edgeInTable. simpl.
  destruct (isSelectedComponent app (source (getEdge (gCopy app) edge)));
    simpl.
  - destruct (in_table _ && in_table _) eqn:Hin.
    + left. split; [intros [_ H]; discriminate|].
      rewrite (drawn_get_in _ _ _ Hin). simpl.
      destruct (existsb _ drawn).
      * exists drawn, []. unfold omap.
        destruct (drawEdges_loop app rest drawn); reflexivity.
      * destruct (bundleButton app).
        -- exists drawn, (bundleSegments app edge). reflexivity.
        -- rewrite (drawn_set_in _ _ _ Hin). simpl.
           eexists _, [_]. reflexivity.
    + right. split; [auto|]. rewrite (drawn_get_out _ _ _ Hin). reflexivity.
  - left. split; [intros [H _]; discriminate|].
    exists drawn, []. unfold omap.
    destruct (drawEdges_loop app rest drawn); reflexivity.
Qed.

Lemma drawEdges_loop_bounds (edges : list Z) (drawn : DrawnTable) :
  (drawEdges_loop app edges drawn = OutOfBounds
   <-> exists edge, In edge edges /\ offending edge)
  /\ drawEdges_loop app edges drawn <> OutOfFuel.
Proof.
  revert drawn. induction edges as [|edge rest IH]; intros drawn.
  - simpl. split; [|discriminate].
    split; [discriminate|intros (e & [] & _)].
  - destruct (drawEdges_loop_step edge rest drawn)
      as [(Hok & drawn' & front & ->)|(Hbad & ->)].
    + destruct (IH drawn') as [Hiff Hfuel].
      destruct (drawEdges_loop app rest drawn') eqn:E; simpl.
      * split; [|discriminate]. split; [discriminate|].
        intros (e & [<-|Hin] & He); [contradiction|].
        assert (Hbad : Done a = OutOfBounds) by (apply Hiff; exists e; auto).
        discriminate Hbad.
      * split; [|discriminate]. split; [|reflexivity].
        intros _. destruct (proj1 Hiff eq_refl) as (e & Hin & He).
        exists e. split; [right|]; auto.
      * congruence.
    + split; [|discriminate]. split; [|reflexivity].
      intros _. exists edge. split; [left; reflexivity|exact Hbad].
Qed.

End EdgePass.

(** C9.  The edge pass reads or writes its 1000 by 1000 table out of
    bounds exactly when some edge whose source passes the component filter
    has an endpoint outside [0, 1000).  So it stays in bounds when every
    endpoint is in that range, and with the filter off any edge with an
    endpoint of 1000 or more takes it out of bounds. *)
Theorem drawEdges_table_bounds (app : Mycelia) :
  let src edge := source (getEdge (gCopy app) edge) in
  let tgt edge := target (getEdge (gCopy app) edge) in
  (drawEdges_calls app = OutOfBounds
   <-> exists edge,
         In edge (getEdges (gCopy app))
         /\ isSelectedComponent app (src edge) = true
         /\ ~ (0 <= src edge < 1000 /\ 0 <= tgt edge < 1000))
  /\ ((forall edge, In edge (getEdges (gCopy app)) ->
         0 <= src edge < 1000 /\ 0 <= tgt edge < 1000) ->
      exists calls, drawEdges_calls app = Done calls)
  /\ (componentButton app = false ->
      forall edge, In edge (getEdges (gCopy app)) ->
        1000 <= src edge \/ 1000 <= tgt edge ->
        drawEdges_calls app = OutOfBounds).
Proof.
  intros src tgt.
  destruct (drawEdges_loop_bounds app (getEdges (gCopy app)) [])
    as [Hiff Hfuel].
  fold (drawEdges_calls app) in Hiff, Hfuel.
  assert (Hrange : forall edge,
             edgeInTable (gCopy app) edge = false
             <-> ~ (0 <= src edge < 1000 /\ 0 <= tgt edge < 1000)).
  { intro edge. unfold edgeInTable. fold (src edge) (tgt edge).
    rewrite andb_false_iff, <- !not_true_iff_false, !in_table_range. lia. }
  assert (Hiff' : drawEdges_calls app = OutOfBounds
                  <-> exists edge,
                        In edge (getEdges (gCopy app))
                        /\ isSelectedComponent app (src edge) = true
                        /\ ~ (0 <= src edge < 1000 /\ 0 <= tgt edge < 1000)).
  { rewrite Hiff. split; intros (e & Hin & Hsel & Hout); exists e;
      (split; [exact Hin|split; [exact Hsel|apply Hrange, Hout]]). }
  split; [exact Hiff'|split].
  - intros Hall. destruct (drawEdges_calls app) as [calls| |] eqn:E.
    + exists calls. reflexivity.
    + exfalso. destruct (proj1 Hiff' eq_refl) as (e & Hin & _ & Hout).
      apply Hout, Hall, Hin.
    + congruence.
  - intros Hoff edge Hin Hbig. apply Hiff'. exists edge.
    split; [exact Hin|]. split; [|lia].
    unfold isSelectedComponent. rewrite Hoff. reflexivity.
Qed.

Lemma joins_true (s t : Z) (e : Edge) :
  joins s t e = true <-> source e = s /\ target e = t.
Proof. unfold joins. lia. Qed.

Lemma callsJoining_length (s t : Z) (calls : list EdgeCall) :
  s <> t ->
  List.length (callsJoining s t calls)
  = (List.length (callsBetween s t calls)
     + List.length (callsBetween t s calls))%nat.
Proof.
  intro Hst. induction calls as [|c calls IH]; [reflexivity|].
  unfold callsJoining, callsBetween in *. simpl.
  destruct c as [e|p q m w]; [|exact IH].
  destruct (joins s t e) eqn:Jst, (joins t s e) eqn:Jts; simpl;
    try rewrite IH; try lia.
  apply joins_true in Jst, Jts. lia.
Qed.

Section Dedup.

Variable app : Mycelia.

Hypothesis straight : bundleButton app = false.

(** The calls for the edges from [s] to [t] that a pass over [edges]
    makes when it starts from the table [drawn]. *)
Let expected (edges : list Z) (drawn : DrawnTable) (s t : Z)
    : list EdgeCall :=
  if existsb (same_cell s t) drawn then []
  else if isSelectedComponent app s
  then match find (fun edge => joins s t (getEdge (gCopy app) edge)) edges
       with
       | Some edge => [ CallDrawEdge (getEdge (gCopy app) edge) ]
       | None => []
       end
  else [].

Lemma drawEdges_loop_dedup (edges : list Z) (drawn : DrawnTable) :
  (forall edge, In edge edges -> edgeInTable (gCopy app) edge = true) ->
  exists calls,
    drawEdges_loop app edges drawn = Done calls
    /\ forallb isEdgeCall calls = true
    /\ forall s t, callsBetween s t calls = expected edges drawn s t.
Proof.
  revert drawn. induction edges as [|edge rest IH]; intros drawn Hin.
  - exists []. split; [reflexivity|]. split; [reflexivity|].
    intros s t. unfold expected. simpl.
    destruct (existsb _ drawn); [reflexivity|].
    destruct (isSelectedComponent app s); reflexivity.
  - assert (Hrest : forall e, In e rest -> edgeInTable (gCopy app) e = true)
      by (intros e He; apply Hin; right; exact He).
    pose proof (Hin edge (or_introl eq_refl)) as Hedge.
    unfold edgeInTable in Hedge. simpl.
    set (e := getEdge (gCopy app) edge) in *.
    destruct (isSelectedComponent app (source e)) eqn:Hsel; simpl.
    + rewrite (drawn_get_in _ _ _ Hedge). simpl.
      destruct (existsb (same_cell (source e) (target e)) drawn) eqn:Hseen.
      * destruct (IH drawn Hrest) as (calls & -> & Hall & Hcalls).
        exists calls. split; [reflexivity|]. split; [exact Hall|].
        intros s t.
        rewrite Hcalls. unfold expected. simpl. fold e.
        destruct (joins s t e) eqn:J; [|reflexivity].
        apply joins_true in J. destruct J as [<- <-].
        rewrite Hseen. reflexivity.
      * rewrite straight, (drawn_set_in _ _ _ Hedge). simpl.
        destruct (IH ((source e, target e) :: drawn) Hrest)
          as (calls & -> & Hall & Hcalls).
        exists (CallDrawEdge e :: calls). split; [reflexivity|].
        split; [exact Hall|].
        intros s t. simpl. rewrite Hcalls. unfold expected. simpl. fold e.
        change (same_cell s t (source e, target e)) with (joins s t e).
        destruct (joins s t e) eqn:J; simpl; [|reflexivity].
        apply joins_true in J. destruct J as [<- <-].
        rewrite Hseen, Hsel. reflexivity.
    + destruct (IH drawn Hrest) as (calls & -> & Hall & Hcalls).
      exists calls. split; [reflexivity|]. split; [exact Hall|].
      intros s t.
      rewrite Hcalls. unfold expected. simpl. fold e.
      destruct (joins s t e) eqn:J; [|reflexivity].
      apply joins_true in J. destruct J as [<- _].
      rewrite Hsel. reflexivity.
Qed.

End Dedup.

(** C1, amended.  Without bundling and with every endpoint inside the
    table, the edge pass makes calls of the [Edge] overload of [drawEdge]
    only: one for every ordered pair (source, target) that has an edge
    whose source passes the component filter, and none for another pair; the one call is for the first such edge
    in the order of the graph, which gives it its material and width.  Two
    opposite edges are two ordered pairs: each is drawn. *)
Theorem drawEdges_one_call_per_ordered_pair (app : Mycelia) :
  bundleButton app = false ->
  (forall edge, In edge (getEdges (gCopy app)) ->
     edgeInTable (gCopy app) edge = true) ->
  exists calls,
    drawEdges_calls app = Done calls
    /\ forallb isEdgeCall calls = true
    /\ (forall s t edge,
          firstEdge (gCopy app) s t = Some edge ->
          isSelectedComponent app s = true ->
          callsBetween s t calls
          = [ CallDrawEdge (getEdge (gCopy app) edge) ])
    /\ (forall s t,
          firstEdge (gCopy app) s t = None \/ isSelectedComponent app s = false ->
          callsBetween s t calls = [])
    /\ (forall s t,
          s <> t ->
          List.length (callsJoining s t calls)
          = (List.length (callsBetween s t calls)
             + List.length (callsBetween t s calls))%nat).
Proof.
  intros Hstraight Hin.
  destruct (drawEdges_loop_dedup app Hstraight (getEdges (gCopy app)) [] Hin)
    as (calls & Hcalls & Hall & Hbetween).
  exists calls. split; [exact Hcalls|]. split; [exact Hall|].
  cbv zeta in Hbetween. simpl in Hbetween.
  split; [|split].
  - intros s t edge Hfirst Hsel. rewrite Hbetween, Hsel.
    unfold firstEdge in Hfirst. rewrite Hfirst. reflexivity.
  - intros s t [Hnone|Hsel]; rewrite Hbetween.
    + unfold firstEdge in Hnone. rewrite Hnone.
      destruct (isSelectedComponent app s); reflexivity.
    + rewrite Hsel. reflexivity.
  - intros s t Hst. apply callsJoining_length, Hst.
Qed.

(** ** The display-list cache *)

(** A build tags the lists with the version of the graph copy, and
    reads nothing of the former data item but its texture table. *)
Lemma buildGraphList_fresh (app : Mycelia) (edges : list GLCmd) :
  drawEdges ext app = Done edges ->
  forall d, exists d',
    buildGraphList hdr ext app d = Done d'
    /\ graphListVersion d' = getVersion (gCopy app)
    /\ forall d0,
         getTextureId d0 = getTextureId d ->
         buildGraphList hdr ext app d0 = Done d'.
Proof.
  intros Hedges d. unfold buildGraphList. rewrite Hedges. cbn [bind].
  eexists. split; [reflexivity|]. split; [reflexivity|].
  intros d0 Heq. unfold drawNodes, drawNode, drawTextureNode.
  rewrite Heq. reflexivity.
Qed.

(** C4, amended.  On a call of [display] that does not show the logo, and
    whose edge pass (run only when the cache is stale) and overlay walk run
    to their end: when the cached version equals the version of the graph
    copy the data item is returned as it was, nothing being rebuilt;
    otherwise the data item returned is the one [buildGraphList] compiles,
    which depends on the former one by its texture table only; either way
    the cached version afterwards is the version of the graph copy. *)
Theorem display_cache_protocol (fuel : nat) (app : Mycelia) (d : DataItem) :
  showingLogo app = false ->
  (graphListVersion d = getVersion (gCopy app)
   \/ exists edges, drawEdges ext app = Done edges) ->
  (spanningTreeButton app = true \/ shortestPathButton app = false
   \/ exists path,
        shortestPath_walk hdr fuel app (selectedNode app) = Done path) ->
  exists d' out,
    display hdr ext fuel app d = Done (d', out)
    /\ graphListVersion d' = getVersion (gCopy app)
    /\ (graphListVersion d = getVersion (gCopy app) -> d' = d)
    /\ (graphListVersion d <> getVersion (gCopy app) ->
        buildGraphList hdr ext app d = Done d'
        /\ forall d0,
             getTextureId d0 = getTextureId d ->
             buildGraphList hdr ext app d0 = Done d').
Proof.
  intros Hlogo Hedges Hwalk.
  assert (Hdraw : forall d1, exists out,
             display_draw hdr ext fuel app d1 = Done out).
  { intro d1. unfold display_draw.
    destruct (spanningTreeButton app); [eexists; reflexivity|].
    destruct (shortestPathButton app); [|eexists; reflexivity].
    destruct Hwalk as [Hs|[Hs|(path & Hpath)]]; try discriminate.
    unfold drawShortestPath. rewrite Hpath. eexists; reflexivity. }
  unfold display. rewrite Hlogo.
  destruct (graphListVersion d =? getVersion (gCopy app)) eqn:Hv;
    cbn [negb bind].
  - apply Z.eqb_eq in Hv. destruct (Hdraw d) as (out & ->).
    exists d, out. repeat split; auto; contradiction.
  - apply Z.eqb_neq in Hv.
    destruct Hedges as [Hcurrent|(edges & Hedges)]; [contradiction|].
    destruct (buildGraphList_fresh app edges Hedges d) as (d' & Hd' & Hv' & Hd0).
    rewrite Hd'. cbn [bind]. destruct (Hdraw d') as (out & ->).
    exists d', out. cbn [bind]. repeat split; auto; contradiction.
Qed.

(** ** The overlay walks *)

Lemma dup_in_map_seq (f : nat -> Z) (m a : nat) :
  ~ NoDup (map f (seq a m)) ->
  exists i j, (a <= i < j)%nat /\ (j < a + m)%nat /\ f i = f j.
Proof.
  revert a. induction m as [|m IH]; intros a Hdup.
  - exfalso. apply Hdup. constructor.
  - simpl in Hdup.
    destruct (in_dec Z.eq_dec (f a) (map f (seq (S a) m))) as [Hin|Hout].
    + apply in_map_iff in Hin. destruct Hin as (j & Hj & Hseq).
      apply in_seq in Hseq. exists a, j. repeat split; auto; lia.
    + destruct (IH (S a)) as (i & j & Hij & Hj & Heq).
      { intro Hnd. apply Hdup. constructor; assumption. }
      exists i, j. repeat split; auto; lia.
Qed.

(** More than [n] nodes out of [n] repeat one. *)
Lemma pigeonhole (f : nat -> Z) (n : nat) :
  (forall k, (k <= n)%nat -> 0 <= f k < Z.of_nat n) ->
  exists a b, (a < b <= n)%nat /\ f a = f b.
Proof.
  intro Hrange.
  destruct (ListDec.NoDup_dec Z.eq_dec (map f (seq 0 (S n)))) as [Hnd|Hdup].
  - exfalso.
    assert (Hincl : incl (map f (seq 0 (S n))) (map Z.of_nat (seq 0 n))).
    { intros z Hz. apply in_map_iff in Hz. destruct Hz as (k & <- & Hk).
      apply in_seq in Hk. apply in_map_iff.
      exists (Z.to_nat (f k)). specialize (Hrange k ltac:(lia)).
      split; [lia|]. apply in_seq. lia. }
    pose proof (NoDup_incl_length Hnd Hincl) as Hlen.
    rewrite !length_map, !length_seq in Hlen. lia.
  - destruct (dup_in_map_seq f (S n) 0 Hdup) as (a & b & Hab & Hb & Heq).
    exists a, b. split; [lia|exact Heq].
Qed.

Lemma follow_add (v : list Z) (a b : nat) (i : Z) :
  follow v (a + b) i = follow v b (follow v a i).
Proof.
  revert i. induction a as [|a IH]; intro i; simpl; [reflexivity|apply IH].
Qed.

Lemma follow_succ (v : list Z) (k : nat) (i : Z) :
  follow v (S k) i = nth (Z.to_nat (follow v k i)) v 0.
Proof.
  replace (S k) with (k + 1)%nat by lia. rewrite follow_add. reflexivity.
Qed.

Section Overlay.

Variable app : Mycelia.

Let v : list Z := predecessorVector app.
Let n : nat := List.length v.

Hypothesis valid : validEntries v.

Lemma vector_at_in (i : Z) :
  0 <= i < Z.of_nat n -> vector_at v i = Done (nth (Z.to_nat i) v 0).
Proof.
  intro Hi. unfold vector_at. fold n.
  replace ((0 <=? i) && (i <? Z.of_nat n)) with true by lia. reflexivity.
Qed.

Lemma nth_valid (i : Z) :
  0 <= i < Z.of_nat n -> 0 <= nth (Z.to_nat i) v 0 < Z.of_nat n.
Proof. intro Hi. apply valid, nth_In. fold n. lia. Qed.

Lemma follow_valid (k : nat) (i : Z) :
  0 <= i < Z.of_nat n -> 0 <= follow v k i < Z.of_nat n.
Proof.
  revert i. induction k as [|k IH]; intros i Hi; simpl; [exact Hi|].
  apply IH, nth_valid, Hi.
Qed.

(** A walk that ends has run its body fewer times than it had fuel. *)
Lemma shortestPath_walk_length (fuel : nat) (i : Z) (path : list (Z * Edge)) :
  shortestPath_walk hdr fuel app i = Done path ->
  (List.length path < fuel)%nat.
Proof.
  revert i path. induction fuel as [|fuel IH]; intros i path; simpl.
  - discriminate.
  - destruct (i =? previousNode app).
    { intros [= <-]. simpl. lia. }
    destruct (vector_at (predecessorVector app) i) as [p| |]; simpl;
      try discriminate.
    destruct (i =? p).
    { intros [= <-]. simpl. lia. }
    destruct (shortestPath_walk hdr fuel app p) as [rest| |] eqn:E; simpl;
      try discriminate.
    intros [= <-]. simpl. specialize (IH p rest E). lia.
Qed.

(** From a node of the graph a walk reads the vector within its bounds;
    when the fuel runs out, none of the nodes it passed was its own
    predecessor. *)
Lemma shortestPath_walk_runs (fuel : nat) (i : Z) :
  0 <= i < Z.of_nat n ->
  shortestPath_walk hdr fuel app i <> OutOfBounds
  /\ (shortestPath_walk hdr fuel app i = OutOfFuel ->
      forall k, (k < fuel)%nat -> follow v (S k) i <> follow v k i).
Proof.
  revert i. induction fuel as [|fuel IH]; intros i Hi; simpl.
  - split; [discriminate|]. intros _ k Hk. lia.
  - destruct (i =? previousNode app).
    { split; discriminate. }
    fold v. rewrite (vector_at_in i Hi). cbn [bind].
    destruct (i =? nth (Z.to_nat i) v 0) eqn:Hself.
    { split; discriminate. }
    apply Z.eqb_neq in Hself.
    destruct (IH _ (nth_valid i Hi)) as [Hoob Hfuel].
    destruct (shortestPath_walk hdr fuel app (nth (Z.to_nat i) v 0))
      as [rest| |] eqn:E; cbn [bind].
    + split; discriminate.
    + congruence.
    + split; [discriminate|]. intros _ [|k] Hk.
      * simpl. congruence.
      * simpl. apply (Hfuel eq_refl k). lia.
Qed.

End Overlay.

(** C6, amended.  The spanning-tree overlay runs its body once for each
    entry of the predecessor vector, whatever the vector holds.  The
    shortest-path overlay, started at a node of the graph on a vector whose
    entries are nodes of the graph and whose only cycles are self-loops,
    ends after at most as many runs of its body as there are nodes. *)
Theorem overlay_walks_terminate (app : Mycelia) :
  let v := predecessorVector app in
  let n := List.length v in
  List.length (spanningTree_walk hdr 0 v) = n
  /\ (validEntries v -> selfLoopsOnly v ->
      0 <= selectedNode app < Z.of_nat n ->
      exists path,
        shortestPath_walk hdr (S n) app (selectedNode app) = Done path
        /\ (List.length path <= n)%nat).
Proof.
  intros v n. split.
  - subst n. generalize 0 as i. induction v as [|p rest IH]; intro i; simpl;
      [reflexivity|]. rewrite IH. reflexivity.
  - intros Hvalid Hloops Hsel.
    destruct (shortestPath_walk_runs app Hvalid (S n) _ Hsel) as [Hoob Hfuel].
    destruct (shortestPath_walk hdr (S n) app (selectedNode app))
      as [path| |] eqn:E.
    + exists path. split; [reflexivity|].
      apply shortestPath_walk_length in E. lia.
    + congruence.
    + exfalso. specialize (Hfuel eq_refl).
      destruct (pigeonhole (fun k => follow v k (selectedNode app)) n)
        as (a & b & Hab & Heq).
      { intros k _. apply follow_valid; assumption. }
      cbv beta in Heq.
      apply (Hfuel a); [lia|]. rewrite follow_succ.
      apply (Hloops _ (b - a)%nat).
      * apply follow_valid; assumption.
      * lia.
      * rewrite <- follow_add. replace (a + (b - a))%nat with b by lia.
        symmetry. exact Heq.
Qed.

(** ** The layout life cycle *)

Lemma coherent_runningCount (app : Mycelia) :
  coherent app = true -> (runningCount app <= 1)%nat.
Proof.
  unfold coherent, runningCount.
  destruct (staticLayout app), (dynamicLayout app),
    (bundlerState (edgeBundler app)), (layout app); simpl;
    intros; try discriminate; lia.
Qed.

(** No worker runs. *)
Lemma quiet_coherent (app : Mycelia) :
  staticLayout app = Stopped -> dynamicLayout app = Stopped ->
  coherent app = true.
Proof. unfold coherent. intros -> ->. reflexivity. Qed.

(** Cases on the current layout and the three workers. *)
Ltac workers app :=
  let L := fresh "L" in
  let S := fresh "S" in
  let D := fresh "D" in
  let B := fresh "B" in
  destruct (layout app) eqn:L, (staticLayout app) eqn:S,
    (dynamicLayout app) eqn:D, (bundlerState (edgeBundler app)) eqn:B;
  repeat (progress (simpl; rewrite ?L, ?S, ?D, ?B));
  intros; try reflexivity; try congruence.

Lemma coherent_startLayout (app : Mycelia) :
  coherent app = true -> bundlerState (edgeBundler app) = Stopped ->
  coherent (startLayout app) = true.
Proof. unfold coherent, startLayout. workers app. Qed.

Lemma coherent_resumeLayout (app : Mycelia) :
  coherent app = true -> bundlerState (edgeBundler app) = Stopped ->
  coherent (resumeLayout app) = true.
Proof.
  intros Hco Hb. unfold resumeLayout.
  destruct (layout_isDynamic app && negb (skipLayout app));
    [apply coherent_startLayout|]; assumption.
Qed.

Lemma coherent_stopLayout (app : Mycelia) :
  coherent (stopLayout app) = true.
Proof. reflexivity. Qed.

Lemma coherent_setLayoutType (app : Mycelia) (type : Z) :
  coherent app = true -> coherent (setLayoutType hdr app type) = true.
Proof.
  unfold coherent, setLayoutType.
  destruct (type =? LAYOUT_DYNAMIC hdr); [|destruct (type =? LAYOUT_STATIC hdr)];
    simpl; workers app.
Qed.

(** [setLayoutType] starts nothing. *)
Lemma quiet_setLayoutType (app : Mycelia) (type : Z) :
  staticLayout app = Stopped -> dynamicLayout app = Stopped ->
  bundlerState (edgeBundler app) = Stopped ->
  staticLayout (setLayoutType hdr app type) = Stopped
  /\ dynamicLayout (setLayoutType hdr app type) = Stopped
  /\ bundlerState (edgeBundler (setLayoutType hdr app type)) = Stopped.
Proof.
  unfold setLayoutType.
  destruct (type =? LAYOUT_DYNAMIC hdr); [|destruct (type =? LAYOUT_STATIC hdr)];
    simpl; destruct (layout app); simpl; auto.
Qed.

Lemma coherent_bundleCallback (app : Mycelia) (set : bool) :
  coherent app = true -> coherent (bundleCallback ext app set) = true.
Proof.
  intro Hco. unfold bundleCallback.
  destruct (getNodeCount (g app) =? 0); [exact Hco|].
  destruct set; [reflexivity|].
  apply coherent_resumeLayout; [|reflexivity].
  revert Hco. unfold coherent. simpl. workers app.
Qed.

(** [resetNavigationCallback] stops the edge bundler, and leaves at most
    the current layout running. *)
Lemma coherent_resetNavigationCallback (app : Mycelia) :
  coherent (resetNavigationCallback ext app) = true
  /\ bundlerState (edgeBundler (resetNavigationCallback ext app)) = Stopped.
Proof.
  unfold resetNavigationCallback.
  destruct (locate ext (g (stopLayout app))) as [center radius].
  destruct (negb (layout_isStopped app)).
  - unfold resumeLayout.
    destruct (layout_isDynamic _ && negb (skipLayout _)).
    + split; unfold coherent, startLayout; workers app.
    + split; reflexivity.
  - split; reflexivity.
Qed.

Lemma coherent_resetLayout (app : Mycelia) (watch : bool) :
  coherent (resetLayout hdr ext app watch) = true.
Proof.
  unfold resetLayout.
  set (app2 := set_bundleButton false (stopLayout app)).
  set (app3 := if staticButton app2
               then setLayoutType hdr app2 (LAYOUT_STATIC hdr)
               else setLayoutType hdr app2 (LAYOUT_DYNAMIC hdr)).
  assert (Hquiet : staticLayout app3 = Stopped
                   /\ dynamicLayout app3 = Stopped
                   /\ bundlerState (edgeBundler app3) = Stopped).
  { subst app3. destruct (staticButton app2);
      apply quiet_setLayoutType; reflexivity. }
  destruct Hquiet as (Hs & Hd & Hb).
  destruct (skipLayout app3 || (getNodeCount (g app3) =? 0)).
  - apply quiet_coherent; assumption.
  - set (app4 := set_g _ app3).
    destruct watch.
    + apply coherent_startLayout; apply coherent_resetNavigationCallback.
    + apply coherent_startLayout; [apply quiet_coherent|]; assumption.
Qed.

Lemma coherent_exec (op : Op) (app : Mycelia) :
  coherent app = true -> guarded op app ->
  coherent (exec hdr ext op app) = true.
Proof.
  intros Hco Hguard. destruct op; simpl in *.
  - apply coherent_setLayoutType, Hco.
  - apply coherent_bundleCallback. exact Hco.
  - apply coherent_resetLayout.
  - apply coherent_resetLayout.
  - apply coherent_resetNavigationCallback.
  - apply coherent_startLayout; assumption.
  - apply coherent_stopLayout.
  - apply coherent_resumeLayout; assumption.
  - exact Hco.
  - revert Hco. unfold coherent. simpl. workers app.
Qed.

Lemma coherent_reachable (init app : Mycelia) :
  coherent init = true -> reachable hdr ext init app -> coherent app = true.
Proof.
  intros Hinit Hreach. induction Hreach as [|app op _ IH Hguard].
  - exact Hinit.
  - apply coherent_exec; assumption.
Qed.

(** C5, amended.  From a state in which no worker runs, the operations on
    the layout life cycle lead only to states in which at most one of the
    static layout, the dynamic layout and the edge bundler runs, as long as
    [startLayout] and [resumeLayout] are not called by themselves while the
    edge bundler runs: [setLayoutType], the bundle toggle, the layout radio
    box, [resetLayout], [resetNavigationCallback] and [stopLayout] stop what
    ran before they start anything. *)
Theorem at_most_one_running (init app : Mycelia) :
  runningCount init = 0%nat ->
  reachable hdr ext init app ->
  (runningCount app <= 1)%nat.
Proof.
  intros Hinit Hreach. apply coherent_runningCount.
  apply (coherent_reachable init); [|exact Hreach].
  revert Hinit. unfold runningCount, coherent.
  destruct (staticLayout init), (dynamicLayout init),
    (bundlerState (edgeBundler init)); simpl; intros; try reflexivity; lia.
Qed.

End Properties.

(** * Further properties *)

Section Further.

Variable hdr : Header.
Variable ext : External.
Variable num : Numerics.

(** ** The layout life cycle, operation by operation *)

(** Cases on what the operations branch on: the current layout and the
    state of the three workers. *)
Ltac by_workers app :=
  let L := fresh "L" in
  let S := fresh "S" in
  let D := fresh "D" in
  let B := fresh "B" in
  destruct (layout app) eqn:L, (staticLayout app) eqn:S,
    (dynamicLayout app) eqn:D, (bundlerState (edgeBundler app)) eqn:B;
  repeat (progress (simpl; rewrite ?L, ?S, ?D, ?B));
  intros; repeat split; try reflexivity; try congruence.

(** X1.  After [resetLayout] the edge bundler is stopped, its toggle is
    off and the current layout is the one the radio box selects.  When
    the layout is skipped or the graph is empty no layout runs and the
    graph is left alone; otherwise the current layout, and only it,
    runs. *)
Theorem resetLayout_outcome (app : Mycelia) (watch : bool) :
  LAYOUT_STATIC hdr <> LAYOUT_DYNAMIC hdr ->
  let app' := resetLayout hdr ext app watch in
  bundlerState (edgeBundler app') = Stopped
  /\ bundleButton app' = false
  /\ layout app'
     = (if layoutRadioBox app =? 0 then StaticLayoutRef else DynamicLayoutRef)
  /\ (if skipLayout app || (getNodeCount (g app) =? 0)
      then staticLayout app' = Stopped /\ dynamicLayout app' = Stopped
           /\ g app' = g app
      else staticLayout app'
           = (if layoutRadioBox app =? 0 then Running else Stopped)
           /\ dynamicLayout app'
              = (if layoutRadioBox app =? 0 then Stopped else Running)).
Proof.
  intros Hconst app'. subst app'. unfold resetLayout, staticButton.
  cbn [layoutRadioBox set_bundleButton stopLayout set_dynamicLayout
       set_staticLayout set_edgeBundler].
  apply Z.eqb_neq in Hconst. unfold setLayoutType.
  destruct (layoutRadioBox app =? 0) eqn:Hradio;
    rewrite ?Hconst, Z.eqb_refl;
    destruct (layout app) eqn:L; simpl; rewrite ?L; simpl;
    (destruct (skipLayout app || (getNodeCount (g app) =? 0));
     [repeat split; reflexivity|]);
    (destruct watch;
     [unfold resetNavigationCallback; simpl;
      destruct (locate ext _) as [center radius]; simpl; rewrite ?L; simpl|]);
    repeat split; reflexivity.
Qed.

(** X2.  Turning bundling on and then off on a graph with nodes leaves
    the edge bundler and the static layout stopped, whatever ran before:
    a static layout is not taken up again.  The dynamic layout runs
    afterwards exactly when it is the current layout and the layout is not
    skipped.  The graph is the former one, updated once.  On an empty
    graph the callback changes nothing, whichever way the toggle went. *)
Theorem bundle_on_off (app : Mycelia) :
  let app' := bundleCallback ext (bundleCallback ext app true) false in
  (getNodeCount (g app) <> 0 ->
   bundlerState (edgeBundler app') = Stopped
   /\ staticLayout app' = Stopped
   /\ dynamicLayout app'
      = (if layout_isDynamic app && negb (skipLayout app)
         then Running else Stopped)
   /\ layout app' = layout app
   /\ g app' = update ext (g app))
  /\ (getNodes (g app) = [] ->
      forall set, bundleCallback ext app set = app).
Proof.
  intros app'. subst app'. split.
  - intros Hnodes. apply Z.eqb_neq in Hnodes.
    unfold bundleCallback. rewrite Hnodes. simpl. rewrite Hnodes.
    unfold resumeLayout, layout_isDynamic, startLayout. simpl.
    destruct (layout app) eqn:L; simpl; rewrite ?L; simpl;
      [|destruct (skipLayout app); simpl; rewrite ?L; simpl];
      repeat split; reflexivity.
  - intros Hempty set. unfold bundleCallback, getNodeCount.
    rewrite Hempty. reflexivity.
Qed.

(** X3.  [resetNavigationCallback] leaves the edge bundler and the static
    layout stopped and keeps the current layout; the dynamic layout runs
    afterwards exactly when it was the current layout, was running, and
    the layout is not skipped. *)
Theorem resetNavigationCallback_workers (app : Mycelia) :
  let app' := resetNavigationCallback ext app in
  bundlerState (edgeBundler app') = Stopped
  /\ staticLayout app' = Stopped
  /\ dynamicLayout app'
     = (if layout_isDynamic app && isRunning (dynamicLayout app)
           && negb (skipLayout app)
        then Running else Stopped)
  /\ layout app' = layout app
  /\ skipLayout app' = skipLayout app.
Proof.
  intro app'. subst app'.
  unfold resetNavigationCallback, layout_isStopped, layout_isDynamic.
  simpl. destruct (locate ext (g app)) as [center radius].
  unfold resumeLayout, layout_isDynamic, startLayout.
  destruct (layout app) eqn:L, (staticLayout app) eqn:S,
    (dynamicLayout app) eqn:D, (skipLayout app) eqn:K;
    simpl; rewrite ?L, ?K; simpl; rewrite ?L, ?K; simpl;
    repeat split; reflexivity.
Qed.

Lemma setLayoutType_idempotent (app : Mycelia) (type : Z) :
  setLayoutType hdr (setLayoutType hdr app type) type
  = setLayoutType hdr app type.
Proof.
  destruct app as [gr copy lay st dy [bs count seg] skip bb cb nib spb stb
                   radio lw nw logo sel prev cone nr ah aw et eo pv out].
  unfold setLayoutType.
  destruct (type =? LAYOUT_DYNAMIC hdr) eqn:Hd;
    [|destruct (type =? LAYOUT_STATIC hdr) eqn:Hs];
    destruct lay; vm_compute; reflexivity.
Qed.

(** X4.  [setLayoutType] done twice is [setLayoutType] done once, and a
    type that names no layout changes nothing.  Asking for the type of the
    current layout leaves both layouts as they are; asking for the other
    one stops all three workers. *)
Theorem setLayoutType_again (app : Mycelia) (type : Z) :
  setLayoutType hdr (setLayoutType hdr app type) type
  = setLayoutType hdr app type
  /\ (type <> LAYOUT_DYNAMIC hdr -> type <> LAYOUT_STATIC hdr ->
      setLayoutType hdr app type = app)
  /\ (layout (setLayoutType hdr app type) = layout app ->
      staticLayout (setLayoutType hdr app type) = staticLayout app
      /\ dynamicLayout (setLayoutType hdr app type) = dynamicLayout app)
  /\ (layout (setLayoutType hdr app type) <> layout app ->
      runningCount (setLayoutType hdr app type) = 0%nat).
Proof.
  split; [apply setLayoutType_idempotent|].
  unfold setLayoutType.
  destruct (type =? LAYOUT_DYNAMIC hdr) eqn:Hd;
    [|destruct (type =? LAYOUT_STATIC hdr) eqn:Hs].
  - split; [|split].
    + intros H. apply Z.eqb_eq in Hd. contradiction.
    + destruct (layout app) eqn:L; simpl; rewrite ?L; simpl;
        [discriminate|split; reflexivity].
    + destruct (layout app) eqn:L; simpl; rewrite ?L; simpl;
        [reflexivity|congruence].
  - split; [|split].
    + intros _ H. apply Z.eqb_eq in Hs. contradiction.
    + destruct (layout app) eqn:L; simpl; rewrite ?L; simpl;
        [split; reflexivity|discriminate].
    + destruct (layout app) eqn:L; simpl; rewrite ?L; simpl;
        [congruence|reflexivity].
  - repeat split; congruence.
Qed.

(** ** Selection *)

(** X5.  Selecting a node of the graph makes it the selected node and the
    formerly selected node the previous one, updates the graph once and
    writes no diagnostic.  The shortest-path toggle is on afterwards only
    if it was on before and both nodes are set, and then the predecessor
    vector is the one the graph computes; with one of them unset the
    toggle is switched off and the vector kept.  The node window shows the
    node's attributes when node information is on. *)
Theorem setSelectedNode_valid (app : Mycelia) (node : Z) :
  isValidNode (g app) node = true ->
  let app' := setSelectedNode hdr ext app node in
  selectedNode app' = node
  /\ previousNode app' = selectedNode app
  /\ g app' = update ext (g app)
  /\ cout app' = cout app
  /\ shortestPathButton app'
     = shortestPathButton app
       && negb (selectedNode app =? SELECTION_NONE hdr)
       && negb (node =? SELECTION_NONE hdr)
  /\ predecessorVector app'
     = (if shortestPathButton app'
        then getShortestPath ext (g app)
        else predecessorVector app)
  /\ nodeWindow app'
     = (if nodeInfoButton app
        then getNodeAttributes ext (g app) node
        else nodeWindow app).
Proof.
  intros Hvalid app'. subst app'. unfold setSelectedNode.
  rewrite Hvalid. cbn [negb]. unfold shortestPathCallback.
  destruct (nodeInfoButton app) eqn:Hi, (shortestPathButton app) eqn:Hp,
    (selectedNode app =? SELECTION_NONE hdr) eqn:Hs,
    (node =? SELECTION_NONE hdr) eqn:Hn;
    simpl; rewrite ?Hi, ?Hp, ?Hs, ?Hn; simpl; rewrite ?Hi, ?Hp, ?Hs, ?Hn;
    simpl; repeat split; reflexivity.
Qed.

(** The walk of the shortest-path overlay is empty when the selected node
    is the previous node. *)
Lemma shortestPath_walk_same (app : Mycelia) (fuel : nat) :
  selectedNode app = previousNode app ->
  shortestPath_walk hdr (S fuel) app (selectedNode app) = Done [].
Proof. intro Hsame. simpl. rewrite Hsame, Z.eqb_refl. reflexivity. Qed.

(** Where the selection stands after a node of the graph is selected. *)
Lemma setSelectedNode_shift (app : Mycelia) (node : Z) :
  isValidNode (g app) node = true ->
  selectedNode (setSelectedNode hdr ext app node) = node
  /\ previousNode (setSelectedNode hdr ext app node) = selectedNode app
  /\ g (setSelectedNode hdr ext app node) = update ext (g app).
Proof.
  intros Hvalid. unfold setSelectedNode. rewrite Hvalid. cbn [negb].
  unfold shortestPathCallback.
  destruct (nodeInfoButton app) eqn:Hi, (shortestPathButton app) eqn:Hp;
    simpl; rewrite ?Hi, ?Hp; simpl;
    try (destruct (negb (selectedNode app =? SELECTION_NONE hdr)
                   && negb (node =? SELECTION_NONE hdr)));
    repeat split; reflexivity.
Qed.

(** X6.  Selecting the same node twice in a row, on a graph that keeps
    the node through an update, leaves it both selected and previous, and
    the shortest-path overlay then draws no node and no edge. *)
Theorem setSelectedNode_twice (app : Mycelia) (node : Z) :
  isValidNode (g app) node = true ->
  isValidNode (update ext (g app)) node = true ->
  let app' := setSelectedNode hdr ext (setSelectedNode hdr ext app node) node in
  selectedNode app' = node
  /\ previousNode app' = node
  /\ forall fuel d,
       drawShortestPath hdr ext (S fuel) app' d
       = Done [ glMaterial (NodeMaterialFromId (MATERIAL_SELECTED hdr)) ].
Proof.
  intros Hvalid Hvalid' app'.
  destruct (setSelectedNode_shift app node Hvalid) as (Hsel1 & _ & Hg1).
  assert (Hvalid1 : isValidNode (g (setSelectedNode hdr ext app node)) node
                    = true) by (rewrite Hg1; exact Hvalid').
  destruct (setSelectedNode_shift _ node Hvalid1) as (Hsel2 & Hprev2 & _).
  fold app' in Hsel2, Hprev2. rewrite Hsel1 in Hprev2.
  split; [exact Hsel2|]. split; [exact Hprev2|].
  intros fuel d. unfold drawShortestPath.
  rewrite shortestPath_walk_same by congruence. reflexivity.
Qed.

(** X7.  After [clearSelections] nothing is selected, the graph is
    updated once, and the shortest-path overlay, whether or not its toggle
    is still on, draws no node and no edge and reads nothing of the
    predecessor vector. *)
Theorem clearSelections_overlay (app : Mycelia) :
  let app' := clearSelections hdr ext app in
  selectedNode app' = SELECTION_NONE hdr
  /\ previousNode app' = SELECTION_NONE hdr
  /\ g app' = update ext (g app)
  /\ shortestPathButton app' = shortestPathButton app
  /\ forall fuel d,
       drawShortestPath hdr ext (S fuel) app' d
       = Done [ glMaterial (NodeMaterialFromId (MATERIAL_SELECTED hdr)) ].
Proof.
  intro app'. repeat split.
  intros fuel d. unfold drawShortestPath.
  rewrite shortestPath_walk_same by reflexivity. reflexivity.
Qed.

(** ** The shape of the shortest-path walk *)

Lemma vector_at_done (v : list Z) (i p : Z) :
  vector_at v i = Done p -> p = nth (Z.to_nat i) v 0.
Proof.
  unfold vector_at.
  destruct ((0 <=? i) && (i <? Z.of_nat (List.length v)));
    [intros [= <-]; reflexivity|discriminate].
Qed.

(** X8.  A shortest-path walk that ends has drawn the selected node, its
    predecessor, the predecessor of that one, and so on; no drawn node is
    the previous node or its own predecessor; each drawn edge goes from
    its node to the entry of the predecessor vector at that node and has
    the selection material; and the walk has stopped at the previous node
    or at a node that is its own predecessor. *)
Theorem shortestPath_walk_chain (app : Mycelia) (fuel : nat) (i : Z)
    (path : list (Z * Edge)) :
  shortestPath_walk hdr fuel app i = Done path ->
  let v := predecessorVector app in
  map fst path = map (fun k => follow v k i) (seq 0 (List.length path))
  /\ Forall (fun s => fst s <> previousNode app
                      /\ source (snd s) = fst s
                      /\ vector_at v (fst s) = Done (target (snd s))
                      /\ target (snd s) <> fst s
                      /\ material (snd s) = MATERIAL_SELECTED hdr) path
  /\ (follow v (List.length path) i = previousNode app
      \/ vector_at v (follow v (List.length path) i)
         = Done (follow v (List.length path) i)).
Proof.
  intros Hwalk v. subst v. revert i path Hwalk.
  induction fuel as [|fuel IH]; intros i path; simpl; [discriminate|].
  destruct (i =? previousNode app) eqn:Hprev.
  { intros [= <-]. apply Z.eqb_eq in Hprev. simpl. auto. }
  apply Z.eqb_neq in Hprev.
  destruct (vector_at (predecessorVector app) i) as [p| |] eqn:Hp;
    cbn [bind]; try discriminate.
  destruct (i =? p) eqn:Hself.
  { intros [= <-]. apply Z.eqb_eq in Hself. subst p. simpl. auto. }
  apply Z.eqb_neq in Hself.
  destruct (shortestPath_walk hdr fuel app p) as [rest| |] eqn:Hrest;
    cbn [bind]; try discriminate.
  intros [= <-]. destruct (IH p rest Hrest) as (Hnodes & Hall & Hlast).
  pose proof (vector_at_done _ _ _ Hp) as Hnth.
  split; [|split].
  - simpl. f_equal. rewrite Hnodes, <- seq_shift, map_map.
    apply map_ext. intro k. simpl. rewrite <- Hnth. reflexivity.
  - constructor; [|exact Hall]. simpl. repeat split; auto.
  - simpl. rewrite <- Hnth. exact Hlast.
Qed.

(** ** The edge pass, bundled *)

Lemma drawEdge_no_arrow (app : Mycelia) (src tgt : Point) (m : MaterialRef)
    (thickness : Q) (isBidir : bool) :
  ~ In (glCallList ArrowList)
       (drawEdge ext app src tgt m thickness false isBidir).
Proof.
  unfold drawEdge.
  destruct (edgeOffsets app _ false isBidir) as [so to]. simpl.
  intro H. repeat (destruct H as [H|H]; [discriminate H|]). exact H.
Qed.

Lemma drawEdges_loop_bundled (app : Mycelia) (edges : list Z) :
  bundleButton app = true ->
  (forall edge, In edge edges ->
     isSelectedComponent app (source (getEdge (gCopy app) edge)) = true ->
     edgeInTable (gCopy app) edge = true) ->
  drawEdges_loop app edges []
  = Done (flat_map (bundleSegments app)
            (filter (fun edge =>
                       isSelectedComponent app
                         (source (getEdge (gCopy app) edge)))
                    edges)).
Proof.
  intros Hbundle. induction edges as [|edge rest IH]; intros Hin;
    [reflexivity|].
  assert (Hrest : forall e, In e rest ->
            isSelectedComponent app (source (getEdge (gCopy app) e)) = true ->
            edgeInTable (gCopy app) e = true)
    by (intros e He; apply Hin; right; exact He).
  simpl.
  destruct (isSelectedComponent app (source (getEdge (gCopy app) edge)))
    eqn:Hsel; simpl.
  - pose proof (Hin edge (or_introl eq_refl) Hsel) as Htable.
    unfold edgeInTable in Htable. unfold drawn_get.
    rewrite Htable, Hbundle, (IH Hrest). reflexivity.
  - apply IH, Hrest.
Qed.

(** X9.  With bundling on, and the endpoints of the edges that pass the
    component filter inside the table, the edge pass draws the segments of
    every such edge, parallel edges and edges already met included: the
    table of drawn pairs is never written.  Every edge gives one segment
    more than the bundler's segment count, and no segment gets an
    arrowhead. *)
Theorem drawEdges_bundled (app : Mycelia) :
  bundleButton app = true ->
  (forall edge, In edge (getEdges (gCopy app)) ->
     isSelectedComponent app (source (getEdge (gCopy app) edge)) = true ->
     edgeInTable (gCopy app) edge = true) ->
  let shown :=
    filter (fun edge =>
              isSelectedComponent app (source (getEdge (gCopy app) edge)))
           (getEdges (gCopy app)) in
  drawEdges_calls app = Done (flat_map (bundleSegments app) shown)
  /\ (forall edge,
        List.length (bundleSegments app edge)
        = Z.to_nat (getSegmentCount (edgeBundler app) + 1))
  /\ exists cmds,
       drawEdges ext app = Done cmds
       /\ ~ In (glCallList ArrowList) cmds.
Proof.
  intros Hbundle Hin shown.
  pose proof (drawEdges_loop_bundled app _ Hbundle Hin) as Hcalls.
  fold (drawEdges_calls app) in Hcalls. fold shown in Hcalls.
  split; [exact Hcalls|]. split.
  - intro edge. unfold bundleSegments. rewrite length_map, length_seq.
    reflexivity.
  - unfold drawEdges. rewrite Hcalls. eexists. split; [reflexivity|].
    intro Harrow. apply in_flat_map in Harrow.
    destruct Harrow as (c & Hc & Harrow).
    apply in_flat_map in Hc. destruct Hc as (edge & _ & Hc).
    unfold bundleSegments in Hc. apply in_map_iff in Hc.
    destruct Hc as (k & <- & _). cbn [runEdgeCall] in Harrow.
    exact (drawEdge_no_arrow _ _ _ _ _ _ Harrow).
Qed.

(** ** What the edge pass never draws *)

(** X10.  Whatever the mode, a call of the [Edge] overload made by the
    edge pass is for an edge of the graph copy whose source passes the
    component filter and whose endpoints are inside the table, and is made
    with bundling off; a segment call is made with bundling on only. *)
Theorem drawEdges_calls_sound (app : Mycelia) (calls : list EdgeCall) :
  drawEdges_calls app = Done calls ->
  (forall e, In (CallDrawEdge e) calls ->
     bundleButton app = false
     /\ exists edge,
          In edge (getEdges (gCopy app))
          /\ e = getEdge (gCopy app) edge
          /\ isSelectedComponent app (source e) = true
          /\ edgeInTable (gCopy app) edge = true)
  /\ (forall p q m w, In (CallDrawSegment p q m w) calls ->
        bundleButton app = true).
Proof.
  unfold drawEdges_calls. generalize (@nil (Z * Z)) as drawn.
  generalize (getEdges (gCopy app)) as edges. intros edges.
  revert calls. induction edges as [|edge rest IH]; intros calls drawn; simpl.
  - intros [= <-]. split; [intros e []|intros p q m w []].
  - destruct (isSelectedComponent app (source (getEdge (gCopy app) edge)))
      eqn:Hsel; simpl.
    + unfold drawn_get, drawn_set.
      destruct (in_table _ && in_table _) eqn:Htable; cbn [bind];
        [|discriminate].
      destruct (existsb _ drawn).
      * intro Hrun. destruct (IH _ _ Hrun) as [He Hs].
        split; [|exact Hs]. intros e Hin.
        destruct (He e Hin) as (Hb & edge' & Hin' & Heq); split; auto.
        exists edge'. split; [right|]; auto.
      * destruct (bundleButton app) eqn:Hbundle.
        -- destruct (drawEdges_loop app rest drawn) as [calls'| |] eqn:Hrun;
             cbn [bind]; try discriminate.
           intros [= <-]. destruct (IH _ _ Hrun) as [He Hs].
           split.
           ++ intros e Hin. apply in_app_or in Hin.
              destruct Hin as [Hin|Hin].
              ** unfold bundleSegments in Hin. apply in_map_iff in Hin.
                 destruct Hin as (k & Hk & _). discriminate Hk.
              ** destruct (He e Hin) as (Hb & _). discriminate Hb.
           ++ reflexivity.
        -- destruct (drawEdges_loop app rest _) as [calls'| |] eqn:Hrun;
             cbn [bind]; try discriminate.
           intros [= <-]. destruct (IH _ _ Hrun) as [He Hs].
           split.
           ++ intros e [[= <-]|Hin].
              ** split; [reflexivity|]. exists edge.
                 split; [left; reflexivity|]. split; [reflexivity|].
                 split; [exact Hsel|exact Htable].
              ** destruct (He e Hin) as (Hb & edge' & Hin' & Heq).
                 split; auto. exists edge'. split; [right|]; auto.
           ++ intros p q m w [Hin|Hin]; [discriminate Hin|].
              exact (Hs p q m w Hin).
    + intro Hrun. destruct (IH _ _ Hrun) as [He Hs].
      split; [|exact Hs]. intros e Hin.
      destruct (He e Hin) as (Hb & edge' & Hin' & Heq); split; auto.
      exists edge'. split; [right|]; auto.
Qed.

(** ** Nodes, textures and the cache *)

(** A node is drawn as its texture quad when it is an image whose texture
    is there, and as the shape otherwise. *)
Lemma drawNode_cases (app : Mycelia) (node : Z) (d : DataItem) :
  let id := getTextureId d (getNodeImagePath (gCopy app) node) in
  drawNode hdr app node d
  = if String.eqb (getNodeType (gCopy app) node) "image" && negb (id =? 0)
    then [ glTextureQuad id node ]
    else snd (drawShapeNode hdr app node).
Proof.
  intro id. unfold drawNode, drawTextureNode. fold id.
  destruct (String.eqb (getNodeType (gCopy app) node) "image") eqn:Himage.
  - apply String.eqb_eq in Himage. rewrite Himage.
    destruct (id =? 0); reflexivity.
  - simpl. rewrite orb_true_r. reflexivity.
Qed.

Lemma drawShapeNode_no_texture (app : Mycelia) (node id n : Z) :
  ~ In (glTextureQuad id n) (snd (drawShapeNode hdr app node)).
Proof.
  simpl. intro H. repeat (destruct H as [H|H]; [discriminate H|]). exact H.
Qed.

Lemma drawEdge_no_texture (app : Mycelia) (src tgt : Point) (m : MaterialRef)
    (thickness : Q) (drawArrow isBidir : bool) (id n : Z) :
  ~ In (glTextureQuad id n)
       (drawEdge ext app src tgt m thickness drawArrow isBidir).
Proof.
  unfold drawEdge.
  destruct (edgeOffsets app _ drawArrow isBidir) as [so to].
  destruct drawArrow; simpl; intro H;
    repeat (destruct H as [H|H]; [discriminate H|]); exact H.
Qed.

(** X11.  [drawNodes] draws a texture quad for a node exactly when the
    node is in the graph copy, passes the component filter, is an image
    that the filter lets through, and has a texture; an image without
    texture is drawn as a shape.  In the "align" mode the display list
    that [buildGraphList] compiles holds no texture quad. *)
Theorem drawNodes_textures (app : Mycelia) (d : DataItem) :
  (forall filter id n,
     In (glTextureQuad id n) (drawNodes hdr app d filter)
     <-> In n (getNodes (gCopy app))
         /\ isSelectedComponent app n = true
         /\ getNodeType (gCopy app) n = "image"%string
         /\ filter <> "image"%string
         /\ id = getTextureId d (getNodeImagePath (gCopy app) n)
         /\ id <> 0)
  /\ (getTextureNodeMode (gCopy app) = "align"%string ->
      forall d', buildGraphList hdr ext app d = Done d' ->
      forall id n, ~ In (glTextureQuad id n) (graphList d')).
Proof.
  assert (Hnodes : forall filter id n,
     In (glTextureQuad id n) (drawNodes hdr app d filter)
     <-> In n (getNodes (gCopy app))
         /\ isSelectedComponent app n = true
         /\ getNodeType (gCopy app) n = "image"%string
         /\ filter <> "image"%string
         /\ id = getTextureId d (getNodeImagePath (gCopy app) n)
         /\ id <> 0).
  { intros filter id n. unfold drawNodes. rewrite in_flat_map. split.
    - intros (node & Hin & Hdraw).
      destruct (isSelectedComponent app node) eqn:Hsel; simpl in Hdraw;
        [|contradiction].
      destruct (String.eqb (getNodeType (gCopy app) node) filter) eqn:Hf;
        simpl in Hdraw; [contradiction|].
      rewrite drawNode_cases in Hdraw.
      destruct (String.eqb (getNodeType (gCopy app) node) "image") eqn:Hi;
        simpl in Hdraw;
        [|exfalso; exact (drawShapeNode_no_texture _ _ _ _ Hdraw)].
      destruct (getTextureId d (getNodeImagePath (gCopy app) node) =? 0)
        eqn:Hid; simpl in Hdraw;
        [exfalso; exact (drawShapeNode_no_texture _ _ _ _ Hdraw)|].
      destruct Hdraw as [[= <- <-]|[]].
      apply String.eqb_eq in Hi. apply String.eqb_neq in Hf.
      apply Z.eqb_neq in Hid. repeat split; auto. congruence.
    - intros (Hin & Hsel & Htype & Hf & -> & Hid).
      exists n. split; [exact Hin|]. rewrite Hsel. simpl.
      replace (String.eqb (getNodeType (gCopy app) n) filter) with false
        by (symmetry; apply String.eqb_neq; congruence).
      simpl. rewrite drawNode_cases, Htype. simpl.
      apply Z.eqb_neq in Hid. rewrite Hid. left. reflexivity. }
  split; [exact Hnodes|].
  intros Halign d'. unfold buildGraphList. rewrite Halign. simpl.
  unfold drawEdges.
  destruct (drawEdges_calls app) as [calls| |]; cbn [bind omap];
    try discriminate.
  intros [= <-] id n. simpl. intro Hin. apply in_app_or in Hin.
  destruct Hin as [Hin|Hin].
  - apply Hnodes in Hin. destruct Hin as (_ & _ & _ & Hf & _). congruence.
  - apply in_flat_map in Hin. destruct Hin as (c & _ & Hin).
    destruct c; exact (drawEdge_no_texture _ _ _ _ _ _ _ _ _ Hin).
Qed.

(** X12.  A call of [display] that ends leaves a data item on which the
    next call, for the same graph copy and settings, ends as well, keeps
    the data item as it is and draws the same. *)
Theorem display_again (fuel : nat) (app : Mycelia) (d d' : DataItem)
    (out : list GLCmd) :
  display hdr ext fuel app d = Done (d', out) ->
  display hdr ext fuel app d' = Done (d', out).
Proof.
  unfold display. destruct (showingLogo app).
  { intros [= <- <-]. reflexivity. }
  destruct (graphListVersion d =? getVersion (gCopy app)) eqn:Hv;
    cbn [negb bind].
  - destruct (display_draw hdr ext fuel app d) as [o| |] eqn:Hdraw;
      cbn [bind]; try discriminate.
    intros [= <- <-]. rewrite Hv. cbn [negb bind]. rewrite Hdraw. reflexivity.
  - destruct (buildGraphList hdr ext app d) as [d1| |] eqn:Hbuild;
      cbn [bind]; try discriminate.
    destruct (display_draw hdr ext fuel app d1) as [o| |] eqn:Hdraw;
      cbn [bind]; try discriminate.
    intros [= <- <-].
    assert (Hfresh : graphListVersion d1 = getVersion (gCopy app)).
    { revert Hbuild. unfold buildGraphList.
      destruct (drawEdges ext app); cbn [bind]; try discriminate.
      intros [= <-]. reflexivity. }
    rewrite Hfresh, Z.eqb_refl. cbn [negb bind]. rewrite Hdraw. reflexivity.
Qed.

(** ** The matrix stack *)

Lemma matrixDepth_app (a b : list GLCmd) (depth : nat) :
  matrixDepth (a ++ b) depth
  = match matrixDepth a depth with
    | Some depth' => matrixDepth b depth'
    | None => None
    end.
Proof.
  revert depth. induction a as [|c a IH]; intro depth; [reflexivity|].
  destruct c; simpl; try apply IH. destruct depth; [reflexivity|apply IH].
Qed.

Lemma balanced_app (a b : list GLCmd) :
  balanced a -> balanced b -> balanced (a ++ b).
Proof.
  intros Ha Hb depth. rewrite matrixDepth_app, Ha. apply Hb.
Qed.

Lemma balanced_flat_map {A : Type} (f : A -> list GLCmd) (l : list A) :
  (forall a, In a l -> balanced (f a)) -> balanced (flat_map f l).
Proof.
  induction l as [|a l IH]; intro H; simpl; [intro depth; reflexivity|].
  apply balanced_app; [apply H; left; reflexivity|].
  apply IH. intros b Hb. apply H. right. exact Hb.
Qed.

Lemma drawEdge_balanced (app : Mycelia) (src tgt : Point) (m : MaterialRef)
    (thickness : Q) (drawArrow isBidir : bool) :
  balanced (drawEdge ext app src tgt m thickness drawArrow isBidir).
Proof.
  unfold drawEdge.
  destruct (edgeOffsets app _ drawArrow isBidir) as [so to].
  destruct drawArrow; intro depth; reflexivity.
Qed.

Lemma drawNode_balanced (app : Mycelia) (node : Z) (d : DataItem) :
  balanced (drawNode hdr app node d).
Proof.
  rewrite drawNode_cases. destruct (_ && _); intro depth; reflexivity.
Qed.

Lemma drawOverlay_balanced (app : Mycelia) (d : DataItem)
    (steps : list (Z * Edge)) :
  balanced (drawOverlay hdr ext app d steps).
Proof.
  unfold drawOverlay.
  apply (balanced_app [_]); [intro depth; reflexivity|].
  apply balanced_flat_map. intros s _.
  apply balanced_app; [apply drawNode_balanced|apply drawEdge_balanced].
Qed.

(** X13.  What the render routines of the file draw leaves the matrix
    stack as it found it, and never pops a matrix it did not push: the
    node pass, the edge pass in either mode, both overlays, and the
    display list compiled from them. *)
Theorem render_matrix_stack (app : Mycelia) (d : DataItem) :
  (forall filter, balanced (drawNodes hdr app d filter))
  /\ (forall cmds, drawEdges ext app = Done cmds -> balanced cmds)
  /\ balanced (drawSpanningTree hdr ext app d)
  /\ (forall fuel cmds,
        drawShortestPath hdr ext fuel app d = Done cmds -> balanced cmds)
  /\ (forall d', buildGraphList hdr ext app d = Done d' ->
        balanced (graphList d')).
Proof.
  assert (Hnodes : forall filter, balanced (drawNodes hdr app d filter)).
  { intro filter. unfold drawNodes. apply balanced_flat_map. intros node _.
    destruct (negb (isSelectedComponent app node));
      [intro depth; reflexivity|].
    destruct (negb (String.eqb _ filter));
      [apply drawNode_balanced|intro depth; reflexivity]. }
  assert (Hedges : forall cmds, drawEdges ext app = Done cmds ->
                                balanced cmds).
  { intros cmds. unfold drawEdges.
    destruct (drawEdges_calls app) as [calls| |]; cbn [omap bind];
      try discriminate.
    intros [= <-]. apply balanced_flat_map. intros c _.
    destruct c; apply drawEdge_balanced. }
  split; [exact Hnodes|]. split; [exact Hedges|]. split; [|split].
  - apply drawOverlay_balanced.
  - intros fuel cmds. unfold drawShortestPath.
    destruct (shortestPath_walk hdr fuel app (selectedNode app));
      cbn [omap bind]; try discriminate.
    intros [= <-]. apply drawOverlay_balanced.
  - intros d'. unfold buildGraphList.
    destruct (drawEdges ext app) as [edges| |] eqn:E; cbn [bind];
      try discriminate.
    intros [= <-]. simpl. apply balanced_app; [|apply Hedges; reflexivity].
    destruct (String.eqb _ _); apply Hnodes.
Qed.

(** ** Picking among equals *)

(** X14.  Point picking breaks ties by the order of the graph: the node
    it returns has its [dist2] below the squared node radius, no node
    before it in the node list has a [dist2] at or below its own, and no
    node after it has a [dist2] below its own; otherwise no node has a
    [dist2] below the squared node radius and the sentinel is returned. *)
Theorem selectNode_point_first (app : Mycelia) (click : Point) :
  let dist2 := pointDist2 num app click in
  let r := selectNode_point hdr num app click in
  (r = SELECTION_NONE hdr
   /\ forall n, In n (getNodes (g app)) ->
        Math.ltb (dist2 n) (pointBound num app) = false)
  \/ (exists before after,
        getNodes (g app) = before ++ r :: after
        /\ Math.ltb (dist2 r) (pointBound num app) = true
        /\ (forall n, In n before -> Math.leb (dist2 n) (dist2 r) = false)
        /\ (forall n, In n after -> Math.ltb (dist2 n) (dist2 r) = false)).
Proof.
  intros dist2 r. subst r dist2. unfold selectNode_point.
  destruct (selectNode_point_scan_first num app click (getNodes (g app))
              (SELECTION_NONE hdr) (pointBound num app))
    as [[Heq Hfar]|Hfirst]; [left|right; exact Hfirst].
  rewrite Heq. split; [reflexivity|exact Hfar].
Qed.

(** X15.  Ray picking breaks ties by the order of the graph: among the
    nodes that pass [x >= 0] and the cone test, the node it returns has
    its [x] below the largest finite [float], none before it in the node
    list has an [x] at or below its own, and none after it has an [x]
    below its own; otherwise none of them has an [x] below the largest
    finite [float] and the sentinel is returned. *)
Theorem selectNode_ray_first (app : Mycelia) (ray : Ray) :
  let x := rayX num app ray in
  let inFront n :=
    Math.geb (x n) Math.zero = true /\ coneTest num app ray n = true in
  let r := selectNode_ray hdr num app ray in
  (r = SELECTION_NONE hdr
   /\ forall n, In n (getNodes (g app)) -> inFront n ->
        Math.ltb (x n) Math.FLT_MAX = false)
  \/ (exists before after,
        getNodes (g app) = before ++ r :: after
        /\ inFront r
        /\ Math.ltb (x r) Math.FLT_MAX = true
        /\ (forall n, In n before -> inFront n ->
              Math.leb (x n) (x r) = false)
        /\ (forall n, In n after -> inFront n ->
              Math.ltb (x n) (x r) = false)).
Proof.
  intros x inFront r. subst r inFront x.
  unfold selectNode_ray, selectNode_ray_scan.
  exact (selectNode_ray_scan_first num app ray (getNodes (g app))
           (mkRayScan (SELECTION_NONE hdr) Math.FLT_MAX [])).
Qed.

(** ** The adjacency matrix of the plug-in callback *)

Lemma mapM_map {A B : Type} (f : A -> outcome B) (h : A -> B) (l : list A) :
  (forall a, In a l -> f a = Done (h a)) -> mapM f l = Done (map h l).
Proof.
  induction l as [|a l IH]; intro H; simpl; [reflexivity|].
  rewrite (H a (or_introl eq_refl)). cbn [bind].
  rewrite IH by (intros b Hb; apply H; right; exact Hb). reflexivity.
Qed.

Lemma mapM_out_of_bounds {A B : Type} (f : A -> outcome B) (l : list A)
    (a : A) :
  In a l -> f a = OutOfBounds -> (forall b, f b <> OutOfFuel) ->
  mapM f l = OutOfBounds.
Proof.
  intros Hin Hbad Hfuel. induction l as [|b l IH]; [destruct Hin|].
  simpl. destruct (f b) as [y| |] eqn:Hb; cbn [bind].
  - destruct Hin as [->|Hin]; [congruence|]. rewrite (IH Hin). reflexivity.
  - reflexivity.
  - exfalso. exact (Hfuel b Hb).
Qed.

Lemma existsb_list_prod (h : Z -> Z -> bool) (l l' : list Z) (i j : Z) :
  existsb (fun p => same_cell i j p && h (fst p) (snd p)) (list_prod l l')
  = existsb (Z.eqb i) l && existsb (Z.eqb j) l' && h i j.
Proof.
  apply Bool.eq_iff_eq_true.
  rewrite !andb_true_iff, !existsb_exists. unfold same_cell. split.
  - intros ([s t] & Hin & H). apply in_prod_iff in Hin. simpl in H.
    apply andb_true_iff in H. destruct H as [Hcell Hh].
    apply andb_true_iff in Hcell. destruct Hcell as [Hs Ht].
    apply Z.eqb_eq in Hs, Ht. subst s t. destruct Hin as [Hi Hj].
    repeat split; [exists i|exists j|exact Hh];
      (split; [assumption|apply Z.eqb_refl]).
  - intros [[(s & Hs & Hsi) (t & Ht & Htj)] Hh].
    apply Z.eqb_eq in Hsi, Htj. subst s t. exists (i, j).
    split; [apply in_prod_iff; auto|]. simpl. rewrite !Z.eqb_refl.
    exact Hh.
Qed.

Section Adjacency.

Variable qs : Queries.
Variable gr : Graph.

(** The marks a pass over [pairs] adds to a table. *)
Lemma adjacencyMark_fold (pairs : list (Z * Z)) (a : DrawnTable) :
  (forall p, In p pairs -> hasEdge qs gr (fst p) (snd p) = true ->
     in_table (fst p) && in_table (snd p) = true) ->
  exists a',
    foldM (adjacencyMark qs gr) pairs a = Done a'
    /\ forall i j,
         existsb (same_cell i j) a'
         = existsb (same_cell i j) a
           || existsb (fun p => same_cell i j p
                                && hasEdge qs gr (fst p) (snd p)) pairs.
Proof.
  revert a. induction pairs as [|p rest IH]; intros a Hin.
  - exists a. split; [reflexivity|]. intros i j. simpl.
    rewrite orb_false_r. reflexivity.
  - assert (Hrest : forall q, In q rest ->
              hasEdge qs gr (fst q) (snd q) = true ->
              in_table (fst q) && in_table (snd q) = true)
      by (intros q Hq; apply Hin; right; exact Hq).
    simpl. unfold adjacencyMark at 1.
    destruct (hasEdge qs gr (fst p) (snd p)) eqn:Hedge.
    + rewrite (drawn_set_in _ _ _ (Hin p (or_introl eq_refl) Hedge)).
      cbn [bind].
      destruct (IH ((fst p, snd p) :: a) Hrest) as (a' & -> & Hmarks).
      exists a'. split; [reflexivity|]. intros i j. rewrite Hmarks. simpl.
      change (same_cell i j (fst p, snd p)) with (same_cell i j p).
      destruct (same_cell i j p), (existsb (same_cell i j) a); reflexivity.
    + cbn [bind]. destruct (IH a Hrest) as (a' & -> & Hmarks).
      exists a'. split; [reflexivity|]. intros i j. rewrite Hmarks.
      rewrite andb_false_r. reflexivity.
Qed.

Lemma adjacencyMark_fuel (pairs : list (Z * Z)) (a : DrawnTable) :
  foldM (adjacencyMark qs gr) pairs a <> OutOfFuel.
Proof.
  revert a. induction pairs as [|p rest IH]; intro a; simpl; [discriminate|].
  unfold adjacencyMark at 1, drawn_set.
  destruct (hasEdge qs gr (fst p) (snd p)); cbn [bind]; [|apply IH].
  destruct (in_table _ && in_table _); cbn [bind]; [apply IH|discriminate].
Qed.

End Adjacency.

Lemma range_in (n i : Z) : In i (range n) <-> 0 <= i < n.
Proof.
  unfold range. rewrite in_map_iff. split.
  - intros (k & <- & Hk). apply in_seq in Hk. lia.
  - intro Hi. exists (Z.to_nat i). split; [lia|]. apply in_seq. lia.
Qed.

(** X16.  The adjacency plug-in, on a graph with nodes: when the graph
    copy has at most 1000 nodes and every pair of its nodes that is
    joined lies inside the 1000 by 1000 table, the callback writes one
    line for each index below the node count, whose items tell, index by
    index, whether both indices are nodes of the graph copy joined by an
    edge, loads the adjacency script and shows the window; a node whose
    number is not below the node count has no line and no column.  With
    more than 1000 nodes the callback runs out of the table. *)
Theorem pythonCallback_adjacency (qs : Queries) (app : Mycelia)
    (w : ImageWindow) :
  getNodeCount (g app) <> 0 ->
  let copy := gCopy app in
  let n := getNodeCount copy in
  let member i := existsb (Z.eqb i) (getNodes copy) in
  (n <= 1000 ->
   (forall s t, In s (getNodes copy) -> In t (getNodes copy) ->
      hasEdge qs copy s t = true -> in_table s && in_table t = true) ->
   pythonCallback qs app w (Some AdjacencyButton)
   = Done (mkImageWindow
             (map (fun i =>
                     map (fun j =>
                            TokenBool (member i && member j
                                       && hasEdge qs copy i j))
                         (range n))
                  (range n))
             (Some "python/plugins/adjmatrix.py"%string)
             true))
  /\ (1000 < n ->
      pythonCallback qs app w (Some AdjacencyButton) = OutOfBounds).
Proof.
  intros Hnodes copy n member. apply Z.eqb_neq in Hnodes.
  unfold pythonCallback. rewrite Hnodes. fold copy. split.
  - intros Hsmall Hin. unfold adjacencyTable.
    destruct (adjacencyMark_fold qs copy
                (list_prod (getNodes copy) (getNodes copy)) [])
      as (a & -> & Hmarks).
    { intros [s t] Hp. apply in_prod_iff in Hp. destruct Hp as [Hs Ht].
      simpl. apply Hin; assumption. }
    cbn [bind]. unfold adjacencyRows. fold n.
    rewrite (mapM_map _ (fun i =>
               map (fun j => TokenBool (member i && member j
                                        && hasEdge qs copy i j))
                   (range n))).
    + reflexivity.
    + intros i Hi. apply range_in in Hi. apply mapM_map.
      intros j Hj. apply range_in in Hj.
      rewrite drawn_get_in by (apply andb_true_iff; split;
                               apply in_table_range; lia).
      cbn [omap bind]. rewrite Hmarks, existsb_list_prod. reflexivity.
  - intros Hbig.
    pose proof (adjacencyMark_fuel qs copy
                  (list_prod (getNodes copy) (getNodes copy)) []) as Hfuel.
    unfold adjacencyTable.
    destruct (foldM _ _ _) as [a| |]; cbn [bind];
      [|reflexivity|congruence].
    unfold adjacencyRows. fold n.
    assert (Hinner : forall source,
              mapM (fun target => omap TokenBool (drawn_get a source target))
                   (range n) = OutOfBounds).
    { intro source. apply (mapM_out_of_bounds _ _ 1000).
      - apply range_in. lia.
      - unfold drawn_get.
        replace (in_table 1000) with false by reflexivity.
        rewrite andb_false_r. reflexivity.
      - intros b. unfold drawn_get.
        destruct (in_table _ && in_table _); discriminate. }
    rewrite (mapM_out_of_bounds _ _ 0); [reflexivity| |apply Hinner|].
    + apply range_in. lia.
    + intros b. rewrite Hinner. discriminate.
Qed.

(** ** A frame, then a display *)

(** X17.  After [frame] the graph copy is the graph.  When the graph has
    no node, [display] then draws the logo and nothing else, whatever the
    cache and the overlay toggles are, and leaves the data item alone.
    When the graph has nodes, a [display] that ends leaves the cache at the
    version of the graph. *)
Theorem frame_display (fuel : nat) (app : Mycelia) (d : DataItem) :
  gCopy (frame app) = g app
  /\ (getNodes (g app) = [] ->
      display hdr ext fuel (frame app) d = Done (d, drawLogo ext))
  /\ (getNodes (g app) <> [] ->
      forall d' out,
        display hdr ext fuel (frame app) d = Done (d', out) ->
        graphListVersion d' = getVersion (g app)).
Proof.
  split; [reflexivity|]. split.
  - intro Hempty. unfold display, frame, getNodeCount. rewrite Hempty.
    reflexivity.
  - intros Hnodes d' out. unfold display, frame, getNodeCount.
    destruct (getNodes (g app)) as [|node rest] eqn:Hlist;
      [contradiction|].
    cbn [showingLogo set_frame List.length gCopy].
    replace (Z.of_nat (S (List.length rest)) =? 0) with false
      by (symmetry; apply Z.eqb_neq; lia).
    destruct (graphListVersion d =? getVersion (g app)) eqn:Hv;
      cbn [negb bind].
    + destruct (display_draw hdr ext fuel _ d); cbn [bind]; try discriminate.
      intros [= <- _]. apply Z.eqb_eq, Hv.
    + unfold buildGraphList.
      destruct (drawEdges ext _); cbn [bind]; try discriminate.
      destruct (display_draw hdr ext fuel _ _); cbn [bind];
        try discriminate.
      intros [= <- _]. reflexivity.
Qed.

End Further.

(** * The claims at concrete inputs *)

(** C3 as the specification words it fails at a query just inside the
    node radius: the node at the origin is at the squared distance
    (1 - 2^-30)^2 from the query, below the squared node radius 1, and
    [dist2] holds 1, which is not below 1; the sentinel is returned. *)
Lemma selectNode_point_near_miss :
  let a := Sample.lone Sample.origin in
  let click := mkVector (1073741823 # 1073741824) 0 0 in
  (sqrDist click Sample.origin < nodeRadius a * nodeRadius a)%Q
  /\ pointDist2 Sample.numerics a click 0 = Float.of_Z 1
  /\ pointBound Sample.numerics a = Float.of_Z 1
  /\ selectNode_point Sample.header Sample.numerics a click = -1
  /\ ~ specPointPicking Sample.header Sample.numerics a click.
Proof.
  intros a click.
  assert (Hlt : (sqrDist click Sample.origin
                 < nodeRadius a * nodeRadius a)%Q) by reflexivity.
  assert (Hres : selectNode_point Sample.header Sample.numerics a click = -1)
    by (vm_compute; reflexivity).
  split; [exact Hlt|].
  split; [vm_compute; reflexivity|]. split; [vm_compute; reflexivity|].
  split; [exact Hres|].
  intros [Hspec _]. destruct Hspec as [Hin _].
  - exists 0. split; [left; reflexivity|exact Hlt].
  - rewrite Hres in Hin. destruct Hin as [Hin|[]]. discriminate Hin.
Qed.

(** Two nodes whose squared distances differ by less than [float]
    tells apart: node 1 is the nearer one, both [dist2] are 1/4, and
    node 0, the first of the two, is returned. *)
Example selectNode_point_rounded_tie :
  let gr := Sample.graph
              [(0, mkVector (549755813889 # 1099511627776) 0 0);
               (1, mkVector (1 # 2) 0 0)] [] 0 in
  let a := Sample.app gr gr in
  (sqrDist Sample.origin (getNodePosition gr 1)
   < sqrDist Sample.origin (getNodePosition gr 0))%Q
  /\ pointDist2 Sample.numerics a Sample.origin 0
     = pointDist2 Sample.numerics a Sample.origin 1
  /\ selectNode_point Sample.header Sample.numerics a Sample.origin = 0.
Proof. repeat split; vm_compute; reflexivity. Qed.

(** C3, amended, at the graph of one node, numbered 0, at the origin,
    with node radius 1: the query (1/2, 0, 0) selects the node and the
    query (2, 0, 0) selects none. *)
Lemma selectNode_point_nearest_sample :
  let a := Sample.lone Sample.origin in
  selectNode_point Sample.header Sample.numerics a (mkVector (1 # 2) 0 0) = 0
  /\ selectNode_point Sample.header Sample.numerics a (mkVector 2 0 0) = -1.
Proof.
  intro a. split.
  - exact (proj1 (proj2 (proj2 (proj2
             (selectNode_point_nearest Sample.header Sample.numerics a
                (mkVector (1 # 2) 0 0))))
             0 eq_refl eq_refl) eq_refl).
  - exact (proj2 (proj2 (proj2 (proj2
             (selectNode_point_nearest Sample.header Sample.numerics a
                (mkVector 2 0 0))))
             0 eq_refl eq_refl) eq_refl).
Defined.

(** C2 as the specification words it fails at a node whose forward
    projection is the largest finite [float]: the node is in front of the
    origin and on the axis of the cone, [x] is not below the initial
    [lambdaMin], and the sentinel is returned. *)
Lemma selectNode_ray_far_node_missed :
  let a := Sample.lone (mkVector Sample.far 0 0) in
  specCandidate a Sample.axis 0
  /\ rayX Sample.numerics a Sample.axis 0 = Math.FLT_MAX
  /\ selectNode_ray Sample.header Sample.numerics a Sample.axis = -1
  /\ ~ specRayPicking Sample.header Sample.numerics a Sample.axis.
Proof.
  intros a.
  assert (Hcand : specCandidate a Sample.axis 0).
  { split; [|split]; vm_compute; discriminate. }
  assert (Hres : selectNode_ray Sample.header Sample.numerics a Sample.axis
                 = -1)
    by (vm_compute; reflexivity).
  split; [exact Hcand|]. split; [vm_compute; reflexivity|].
  split; [exact Hres|].
  intro Hspec. destruct Hspec as [Hin _].
  - exists 0. split; [left; reflexivity|exact Hcand].
  - rewrite Hres in Hin. destruct Hin as [Hin|[]]. discriminate Hin.
Qed.

(** It fails as well at a node far along the ray whose squares leave the
    range of [float]: the node at (2^100, 2^90, 0) is in front of the
    origin and inside the cone, [x * x] and [y2] are both the positive
    infinity, their quotient is a NaN, and the sentinel is returned. *)
Example selectNode_ray_overflow_missed :
  let a := Sample.lone (mkVector (inject_Z (2 ^ 100)) (inject_Z (2 ^ 90)) 0) in
  specCandidate a Sample.axis 0
  /\ Math.sqr (rayX Sample.numerics a Sample.axis 0) = S754_infinity false
  /\ rayY2 Sample.numerics a Sample.axis 0 = S754_infinity false
  /\ coneTest Sample.numerics a Sample.axis 0 = false
  /\ selectNode_ray Sample.header Sample.numerics a Sample.axis = -1.
Proof.
  intros a. split.
  - split; [|split]; vm_compute; discriminate.
  - repeat split; vm_compute; reflexivity.
Qed.

(** C2, amended, at the ray from the origin along (1, 0, 0) with a cone
    angle of 0.01: a lone node at (5, 0, 0) is selected, a lone node at
    (5, 1, 0) is not. *)
Lemma selectNode_ray_nearest_sample :
  let on_axis := Sample.tight (Sample.lone (mkVector 5 0 0)) in
  let off_axis := Sample.tight (Sample.lone (mkVector 5 1 0)) in
  selectNode_ray Sample.header Sample.numerics on_axis Sample.axis = 0
  /\ selectNode_ray Sample.header Sample.numerics off_axis Sample.axis = -1.
Proof.
  intros on_axis off_axis. split.
  - exact (proj1 (proj2 (proj2
             (selectNode_ray_nearest Sample.header Sample.numerics
                on_axis Sample.axis))
             0 eq_refl eq_refl eq_refl eq_refl) eq_refl).
  - exact (proj2 (proj2 (proj2
             (selectNode_ray_nearest Sample.header Sample.numerics
                off_axis Sample.axis))
             0 eq_refl eq_refl eq_refl eq_refl) eq_refl).
Defined.

(** With both nodes in the graph, in either order, the node on the axis is
    the one selected. *)
Example selectNode_ray_two_nodes :
  let pick nodes :=
    selectNode_ray Sample.header Sample.numerics
      (Sample.tight (Sample.app (Sample.graph nodes [] 0)
                                (Sample.graph nodes [] 0))) Sample.axis in
  pick [(0, mkVector 5 0 0); (1, mkVector 5 1 0)] = 0
  /\ pick [(1, mkVector 5 1 0); (0, mkVector 5 0 0)] = 0.
Proof. split; vm_compute; reflexivity. Qed.

(** Two nodes on the axis whose projections differ by less than [float]
    tells apart: node 1 is the nearer one, both [x] are 5, and node 0,
    the first of the two, is returned. *)
Example selectNode_ray_rounded_tie :
  let gr := Sample.graph
              [(0, mkVector (5497558138881 # 1099511627776) 0 0);
               (1, mkVector 5 0 0)] [] 0 in
  let a := Sample.app gr gr in
  (rayProjection a Sample.axis 1 < rayProjection a Sample.axis 0)%Q
  /\ rayX Sample.numerics a Sample.axis 0 = Float.of_Z 5
  /\ rayX Sample.numerics a Sample.axis 1 = Float.of_Z 5
  /\ selectNode_ray Sample.header Sample.numerics a Sample.axis = 0.
Proof. repeat split; vm_compute; reflexivity. Qed.

(** A node whose forward projection is below the largest finite [float]
    by less than [float] tells apart is missed as well: its [x] is the
    largest finite [float]. *)
Example selectNode_ray_rounded_far_node_missed :
  let a := Sample.lone (mkVector (Sample.far - inject_Z (2 ^ 100)) 0 0) in
  (rayProjection a Sample.axis 0 < Sample.far)%Q
  /\ rayX Sample.numerics a Sample.axis 0 = Math.FLT_MAX
  /\ selectNode_ray Sample.header Sample.numerics a Sample.axis = -1.
Proof. repeat split; vm_compute; reflexivity. Qed.

(** C10 as the specification words it fails at a node just in front of
    the ray origin: the node at (2^-80, 0, 0) has a forward projection
    above zero, exactly and as [x] holds it, and the square of [x] is
    zero in [float]: the loop divides by zero. *)
Lemma selectNode_ray_underflow_divides_by_zero :
  let a := Sample.lone (mkVector (1 # 1208925819614629174706176) 0 0) in
  let scan := selectNode_ray_scan Sample.header Sample.numerics a Sample.axis in
  (forall n, In n (getNodes (g a)) -> (0 < rayProjection a Sample.axis n)%Q)
  /\ (forall n, In n (getNodes (g a)) ->
        Math.ltb Math.zero (rayX Sample.numerics a Sample.axis n) = true)
  /\ divisors scan = [ Math.zero ]
  /\ ~ Forall nonzero (divisors scan).
Proof.
  intros a scan.
  assert (Hlog : divisors scan = [ Math.zero ]) by (vm_compute; reflexivity).
  split; [intros n [<-|[]]; reflexivity|].
  split; [intros n [<-|[]]; vm_compute; reflexivity|].
  split; [exact Hlog|].
  rewrite Hlog. intro Hall. inversion Hall as [|d l Hd _]; subst.
  discriminate Hd.
Qed.

(** C10, amended, at a node that sits on the ray origin: the loop divides
    by zero there, and the node is not selected; and at a node at
    (5, 0, 0) with a cone angle of 0.01: no division is by zero, and the
    node selected has an [x] above zero. *)
Lemma selectNode_ray_division_sample :
  let a := Sample.lone Sample.origin in
  let b := Sample.tight (Sample.lone (mkVector 5 0 0)) in
  ~ Forall nonzero
      (divisors (selectNode_ray_scan Sample.header Sample.numerics a
                   Sample.axis))
  /\ selectNode_ray Sample.header Sample.numerics a Sample.axis = -1
  /\ Forall nonzero
       (divisors (selectNode_ray_scan Sample.header Sample.numerics b
                    Sample.axis))
  /\ Math.ltb Math.zero (rayX Sample.numerics b Sample.axis 0) = true.
Proof.
  intros a b. split; [|split; [|split]].
  - apply (proj1 (proj2 (proj2
             (selectNode_ray_division Sample.header Sample.numerics a
                Sample.axis)))).
    exists 0. split; [left; reflexivity|vm_compute; reflexivity].
  - destruct (proj2 (proj2 (proj2
                (selectNode_ray_division Sample.header Sample.numerics a
                   Sample.axis))))
      as [Hnone|(_ & _ & Hpos)].
    + intros n [<-|[]]. vm_compute. reflexivity.
    + vm_compute. discriminate.
    + exact Hnone.
    + vm_compute in Hpos. discriminate Hpos.
  - apply (proj1 (proj2
             (selectNode_ray_division Sample.header Sample.numerics b
                Sample.axis))).
    intros n [<-|[]] _. vm_compute. reflexivity.
  - destruct (proj2 (proj2 (proj2
                (selectNode_ray_division Sample.header Sample.numerics b
                   Sample.axis))))
      as [Hnone|(_ & _ & Hpos)].
    + intros n [<-|[]]. vm_compute. reflexivity.
    + vm_compute. discriminate.
    + vm_compute in Hnone. discriminate Hnone.
    + exact Hpos.
Defined.

(** C1 as the specification words it fails on two opposite edges: the
    pass calls [drawEdge] for each, two calls for the one pair of nodes. *)
Lemma drawEdges_opposite_edges_two_calls :
  let a := Sample.app Sample.opposite Sample.opposite in
  drawEdges_calls a
  = Done [ CallDrawEdge (mkEdge 0 1 1 0); CallDrawEdge (mkEdge 1 0 1 0) ]
  /\ ~ (forall calls,
          drawEdges_calls a = Done calls ->
          List.length (callsJoining 0 1 calls) = 1%nat).
Proof.
  intro a.
  assert (Hcalls : drawEdges_calls a
                   = Done [ CallDrawEdge (mkEdge 0 1 1 0);
                            CallDrawEdge (mkEdge 1 0 1 0) ])
    by (vm_compute; reflexivity).
  split; [exact Hcalls|]. intro Hone.
  specialize (Hone _ Hcalls). vm_compute in Hone. discriminate Hone.
Qed.

(** C1, amended, on the two opposite edges: one call for the pair (0, 1)
    and one for the pair (1, 0). *)
Lemma drawEdges_one_call_sample :
  let a := Sample.app Sample.opposite Sample.opposite in
  exists calls,
    drawEdges_calls a = Done calls
    /\ callsBetween 0 1 calls = [ CallDrawEdge (mkEdge 0 1 1 0) ]
    /\ callsBetween 1 0 calls = [ CallDrawEdge (mkEdge 1 0 1 0) ].
Proof.
  intro a.
  assert (Hin : forall edge, In edge (getEdges (gCopy a)) ->
                             edgeInTable (gCopy a) edge = true).
  { intros edge [<-|[<-|[]]]; reflexivity. }
  destruct (drawEdges_one_call_per_ordered_pair a eq_refl Hin)
    as (calls & Hcalls & _ & Hfirst & _).
  exists calls. split; [exact Hcalls|]. split.
  - exact (Hfirst 0 1 0 eq_refl eq_refl).
  - exact (Hfirst 1 0 1 eq_refl eq_refl).
Defined.

(** C9 on an edge to a node numbered 1000: the pass leaves the table. *)
Lemma drawEdges_table_bounds_sample :
  drawEdges_calls (Sample.app Sample.wide Sample.wide) = OutOfBounds.
Proof.
  apply (proj2 (proj2 (drawEdges_table_bounds
                         (Sample.app Sample.wide Sample.wide)))
           eq_refl 0).
  - left. reflexivity.
  - right. simpl. lia.
Defined.

(** C7 on an edge of length 10 with an edge offset of 3/2: in a
    bidirectional pair the cylinder starts at 3/2 and is 7 long. *)
Lemma drawEdge_foreshortening_sample :
  let a := Sample.app Sample.opposite Sample.opposite in
  let length := mag Sample.external (sub (mkVector 10 0 0) Sample.origin) in
  (length == 10)%Q
  /\ fst (edgeOffsets a length true true) = (3 # 2)%Q
  /\ (snd (edgeOffsets a length true true) == 7)%Q.
Proof.
  intros a length.
  destruct (proj1 (proj2 (drawEdge_foreshortening Sample.external a
                            Sample.origin (mkVector 10 0 0)
                            (EdgeMaterialFromId 0) 1 true true))
              eq_refl eq_refl) as (Hsource & Hcylinder & _).
  split; [reflexivity|]. split; [exact Hsource|].
  fold length in Hcylinder. rewrite Hcylinder. reflexivity.
Defined.

(** C8 on node 7 of a graph whose one node is numbered 0. *)
Lemma setSelectedNode_invalid_sample :
  let gr := Sample.graph [(0, Sample.origin)] [] 0 in
  let a := Sample.app gr gr in
  let a' := setSelectedNode Sample.header Sample.external a 7 in
  selectedNode a' = selectedNode a
  /\ previousNode a' = previousNode a
  /\ g a' = g a
  /\ cout a' = [ InvalidNodeSelected 7 ].
Proof.
  intros gr a a'.
  destruct (setSelectedNode_invalid Sample.header Sample.external a 7 eq_refl)
    as (_ & Hsel & Hprev & Hg & _ & _ & _ & Hcout).
  repeat split; assumption.
Defined.

(** C4 as the specification words it fails while the logo is shown: after
    the frame of an emptied graph of version 5, [display] leaves a cache of
    version 0 as it is. *)
Lemma display_logo_keeps_stale_cache :
  let a := frame (Sample.app (Sample.graph [] [] 5) (Sample.graph [] [] 0)) in
  let d := Sample.dataItem 0 [] in
  showingLogo a = true
  /\ getVersion (gCopy a) = 5
  /\ display Sample.header Sample.external 1 a d
     = Done (d, drawLogo Sample.external)
  /\ ~ (forall d' out,
          display Sample.header Sample.external 1 a d = Done (d', out) ->
          graphListVersion d' = getVersion (gCopy a)).
Proof.
  intros a d. repeat split.
  intro Hspec. specialize (Hspec d _ eq_refl). discriminate Hspec.
Qed.

(** C4, amended, on a graph of version 3 and a cache of version 0, then on
    the cache just built. *)
Lemma display_cache_sample :
  let gr := Sample.graph [(0, Sample.origin)] [] 3 in
  let a := Sample.app gr gr in
  exists d' out,
    display Sample.header Sample.external 1 a (Sample.dataItem 0 [])
    = Done (d', out)
    /\ graphListVersion d' = 3.
Proof.
  intros gr a.
  destruct (display_cache_protocol Sample.header Sample.external 1 a
              (Sample.dataItem 0 []) eq_refl
              (or_intror (ex_intro _ [] eq_refl))
              (or_intror (or_introl eq_refl)))
    as (d' & out & Hrun & Hversion & _).
  exists d', out. split; assumption.
Defined.

(** C5 as the specification words it fails: with the edge bundler
    started by its toggle, [startLayout] starts the static layout beside
    it. *)
Lemma startLayout_beside_bundler :
  let gr := Sample.graph [(0, Sample.origin)] [] 0 in
  let a := Sample.app gr gr in
  let a' := run Sample.header Sample.external
                [ OpBundle true; OpStartLayout ] a in
  runningCount a = 0%nat
  /\ staticLayout a' = Running
  /\ bundlerState (edgeBundler a') = Running
  /\ ~ (runningCount a' <= 1)%nat.
Proof.
  intros gr a a'. repeat split. intro H. vm_compute in H. lia.
Qed.

(** C5, amended, on the bundle toggle followed by the layout radio box. *)
Lemma at_most_one_running_sample :
  let gr := Sample.graph [(0, Sample.origin)] [] 0 in
  let a := Sample.app gr gr in
  (runningCount (run Sample.header Sample.external
                     [ OpBundle true; OpLayoutRadio 1 ] a) <= 1)%nat.
Proof.
  intros gr a.
  apply (at_most_one_running Sample.header Sample.external a); [reflexivity|].
  apply (reach_step _ _ _ _ (OpLayoutRadio 1)); [|exact I].
  apply (reach_step _ _ _ _ (OpBundle true)); [|exact I].
  apply reach_init.
Defined.

(** C6 as the specification words it fails on a vector in which nodes 0
    and 1 are each the predecessor of the other: the walk from node 0
    towards node 2 never ends. *)
Lemma shortestPath_walk_cycle_diverges :
  let a := Sample.walking [1; 0; 2] 0 2 in
  validEntries (predecessorVector a)
  /\ ~ (exists fuel path,
          shortestPath_walk Sample.header fuel a (selectedNode a)
          = Done path).
Proof.
  intro a. split.
  - intros p [<-|[<-|[<-|[]]]]; simpl; lia.
  - intros (fuel & path & Hdone).
    assert (Hloop : forall f,
               shortestPath_walk Sample.header f a 0 = OutOfFuel
               /\ shortestPath_walk Sample.header f a 1 = OutOfFuel).
    { induction f as [|f [IH0 IH1]]; [split; reflexivity|].
      split; simpl; [rewrite IH1|rewrite IH0]; reflexivity. }
    change (selectedNode a) with 0 in Hdone.
    rewrite (proj1 (Hloop fuel)) in Hdone. discriminate Hdone.
Qed.

(** C6, amended, on a vector whose root, node 0, is its own predecessor:
    the walk from node 2 ends at the root after two runs of its body. *)
Lemma overlay_walks_terminate_sample :
  let a := Sample.walking [0; 0; 1] 2 (-1) in
  exists path,
    shortestPath_walk Sample.header 4 a (selectedNode a) = Done path
    /\ (List.length path <= 3)%nat.
Proof.
  intro a.
  apply (proj2 (overlay_walks_terminate Sample.header a)).
  - intros p [<-|[<-|[<-|[]]]]; simpl; lia.
  - assert (Hroot : forall k, follow [0; 0; 1] k 0 = 0)
      by (induction k; [reflexivity|assumption]).
    intros i k Hi Hk Hback. simpl in Hi.
    assert (Hcases : i = 0 \/ i = 1 \/ i = 2) by lia.
    destruct Hcases as [ -> | [ -> | -> ] ]; [reflexivity| |].
    + destruct k as [|k]; [lia|]. simpl in Hback.
      rewrite Hroot in Hback. discriminate Hback.
    + destruct k as [ | [ | k ] ]; [lia|discriminate Hback|].
      simpl in Hback. rewrite Hroot in Hback. discriminate Hback.
  - simpl. lia.
Defined.

(** * The further properties at concrete inputs *)

(** X1 on a graph of one node with the static toggle selected: the static
    layout runs afterwards, alone. *)
Lemma resetLayout_outcome_sample :
  let gr := Sample.graph [(0, Sample.origin)] [] 0 in
  let a' := resetLayout Sample.header Sample.external (Sample.app gr gr)
                        false in
  bundlerState (edgeBundler a') = Stopped
  /\ layout a' = StaticLayoutRef
  /\ staticLayout a' = Running
  /\ dynamicLayout a' = Stopped.
Proof.
  intros gr a'.
  destruct (resetLayout_outcome Sample.header Sample.external
              (Sample.app gr gr) false ltac:(discriminate))
    as (Hbundler & _ & Hlayout & Hstatic & Hdynamic).
  repeat split; assumption.
Defined.

(** X5 on node 1 of a graph of two nodes, nothing being selected before. *)
Lemma setSelectedNode_valid_sample :
  let a' := setSelectedNode Sample.header Sample.external
              (Sample.app Sample.pair Sample.pair) 1 in
  selectedNode a' = 1 /\ previousNode a' = -1 /\ getVersion (g a') = 1.
Proof.
  intro a'.
  destruct (setSelectedNode_valid Sample.header Sample.external
              (Sample.app Sample.pair Sample.pair) 1 eq_refl)
    as (Hsel & Hprev & Hg & _).
  fold a' in Hsel, Hprev, Hg. rewrite Hg. repeat split; assumption.
Defined.

(** X6 on node 1 of a graph of two nodes. *)
Lemma setSelectedNode_twice_sample :
  let a := Sample.app Sample.pair Sample.pair in
  let a' := setSelectedNode Sample.header Sample.external
              (setSelectedNode Sample.header Sample.external a 1) 1 in
  selectedNode a' = 1 /\ previousNode a' = 1.
Proof.
  intros a a'.
  destruct (setSelectedNode_twice Sample.header Sample.external a 1
              eq_refl eq_refl) as (Hsel & Hprev & _).
  split; assumption.
Defined.

(** X8 on the walk from node 2 over the vector [0; 0; 1]: nodes 2 and 1
    are drawn, and the walk stops at node 0, its own predecessor. *)
Lemma shortestPath_walk_chain_sample :
  let a := Sample.walking [0; 0; 1] 2 (-1) in
  let path := [ (2, mkEdge 2 1 1 1); (1, mkEdge 1 0 1 1) ] in
  shortestPath_walk Sample.header 4 a 2 = Done path
  /\ map fst path = [2; 1]
  /\ vector_at (predecessorVector a) 0 = Done 0.
Proof.
  intros a path.
  destruct (shortestPath_walk_chain Sample.header a 4 2 path eq_refl)
    as (Hnodes & _ & [Hlast|Hlast]).
  - discriminate Hlast.
  - split; [reflexivity|]. split; [exact Hnodes|exact Hlast].
Defined.

(** X9 on the two opposite edges with bundling on and a segment count of
    0: one segment for each edge. *)
Lemma drawEdges_bundled_sample :
  let a := set_bundleButton true (Sample.app Sample.opposite Sample.opposite) in
  exists calls,
    drawEdges_calls a = Done calls /\ List.length calls = 2%nat.
Proof.
  intro a.
  assert (Hin : forall edge, In edge (getEdges (gCopy a)) ->
            isSelectedComponent a (source (getEdge (gCopy a) edge)) = true ->
            edgeInTable (gCopy a) edge = true).
  { intros edge [<-|[<-|[]]] _; reflexivity. }
  destruct (drawEdges_bundled Sample.external a eq_refl Hin)
    as (Hcalls & _ & _).
  eexists. split; [exact Hcalls|reflexivity].
Defined.

(** X10 on the two opposite edges with bundling off. *)
Lemma drawEdges_calls_sound_sample :
  let a := Sample.app Sample.opposite Sample.opposite in
  exists edge,
    In edge (getEdges (gCopy a))
    /\ mkEdge 1 0 1 0 = getEdge (gCopy a) edge.
Proof.
  intro a.
  destruct (proj1 (drawEdges_calls_sound a _ eq_refl) (mkEdge 1 0 1 0))
    as (_ & edge & Hin & Heq & _).
  - right. left. reflexivity.
  - exists edge. split; assumption.
Defined.

(** X12 on a graph of version 3 and a cache of version 0: the call after
    the one that rebuilds keeps what was built. *)
Lemma display_again_sample :
  let gr := Sample.graph [(0, Sample.origin)] [] 3 in
  let a := Sample.app gr gr in
  exists d' out,
    display Sample.header Sample.external 1 a (Sample.dataItem 0 [])
    = Done (d', out)
    /\ graphListVersion d' = 3
    /\ display Sample.header Sample.external 1 a d' = Done (d', out).
Proof.
  intros gr a. eexists. eexists.
  split; [reflexivity|]. split; [reflexivity|].
  apply (display_again Sample.header Sample.external 1 a
           (Sample.dataItem 0 [])).
  reflexivity.
Defined.

(** X16 on two nodes joined from 0 to 1. *)
Lemma pythonCallback_adjacency_sample :
  let edges := [ mkEdge 0 1 1 0 ] in
  let gr := Sample.graph [(0, Sample.origin); (1, Sample.origin)] edges 0 in
  pythonCallback (Sample.queries edges) (Sample.app gr gr) Sample.window
                 (Some AdjacencyButton)
  = Done (mkImageWindow
            [ [ TokenBool false; TokenBool true ];
              [ TokenBool false; TokenBool false ] ]
            (Some "python/plugins/adjmatrix.py"%string) true).
Proof.
  intros edges gr.
  refine (proj1 (pythonCallback_adjacency (Sample.queries edges)
                   (Sample.app gr gr) Sample.window
                   ltac:(discriminate)) _ _).
  - vm_compute. discriminate.
  - intros s t [<-|[<-|[]]] [<-|[<-|[]]] H; try discriminate H; reflexivity.
Defined.
